(** * JasonDumper: dumping Jason values as JSON text

    A shallow embedding of [include/JasonDumper.h] (class
    [JasonDumper<T, PrettyPrint>]) and the properties of its output.

    - The output buffer [T] is a byte string; [push_back] and [append] add
      bytes at its end, [reserve] does not change its contents.
    - A [JasonSlice] is the tagged value the dumper reads; arrays and objects
      carry their members in storage order.
    - The member functions run in a state-and-exception monad over the
      dumper's mutable members ([_buffer], [_indentation]); a thrown
      [JasonException] keeps the bytes appended so far.
    - [_strategy], [_callback], the template argument [PrettyPrint] and the
      external [fpconv_dtoa] are parameters of the development. *)

From Stdlib Require Import ZArith Lia List Bool Ascii String.
From Stdlib Require Import Decimal DecimalFacts DecimalPos DecimalN DecimalString.
From Stdlib Require Import PrimFloat.
Import ListNotations.

Set Warnings "-register-all,-notation-for-abbreviation".

Open Scope string_scope.
Open Scope Z_scope.

(** ** Jason types and slices *)

Module JasonType.
Inductive t : Set :=
| None | Null | Bool | Array | Object | Double | UTCDate | External
| MinKey | MaxKey | Int | UInt | SmallInt | String | Binary | BCD | Custom.

Definition eqb (a b : t) : bool :=
  match a, b with
  | None, None | Null, Null | Bool, Bool | Array, Array | Object, Object
  | Double, Double | UTCDate, UTCDate | External, External
  | MinKey, MinKey | MaxKey, MaxKey | Int, Int | UInt, UInt
  | SmallInt, SmallInt | String, String | Binary, Binary | BCD, BCD
  | Custom, Custom => true
  | _, _ => false
  end.
End JasonType.

(** A slice with its payload.  [SArray] holds the members [at(0)],
    [at(1)], ...; [SObject] holds the pairs [(keyAt(i), valueAt(i))];
    [SExternal] holds the slice its pointer refers to; [SString] holds the
    [len] bytes [getString] returns.  Integers are [Z]: [SInt] is an
    [int64_t], [SUInt] a [uint64_t]. *)
Inductive JasonSlice : Type :=
| SNone
| SNull
| SBool (b : bool)
| SArray (members : list JasonSlice)
| SObject (entries : list (JasonSlice * JasonSlice))
| SDouble (v : float)
| SUTCDate (v : Z)
| SExternal (target : JasonSlice)
| SMinKey
| SMaxKey
| SInt (v : Z)
| SUInt (v : Z)
| SSmallInt (v : Z)
| SString (bytes : string)
| SBinary (bytes : string)
| SBCD (bytes : string)
| SCustom (bytes : string).

Definition type (slice : JasonSlice) : JasonType.t :=
  match slice with
  | SNone => JasonType.None
  | SNull => JasonType.Null
  | SBool _ => JasonType.Bool
  | SArray _ => JasonType.Array
  | SObject _ => JasonType.Object
  | SDouble _ => JasonType.Double
  | SUTCDate _ => JasonType.UTCDate
  | SExternal _ => JasonType.External
  | SMinKey => JasonType.MinKey
  | SMaxKey => JasonType.MaxKey
  | SInt _ => JasonType.Int
  | SUInt _ => JasonType.UInt
  | SSmallInt _ => JasonType.SmallInt
  | SString _ => JasonType.String
  | SBinary _ => JasonType.Binary
  | SBCD _ => JasonType.BCD
  | SCustom _ => JasonType.Custom
  end.

Definition isType (slice : JasonSlice) (ty : JasonType.t) : bool :=
  JasonType.eqb (type slice) ty.

(** The accessors [dumpInteger] calls, each after the test of the type. *)
Definition getUInt (slice : JasonSlice) : Z :=
  match slice with SUInt v => v | _ => 0 end.

Definition getInt (slice : JasonSlice) : Z :=
  match slice with SInt v => v | _ => 0 end.

Definition getSmallInt (slice : JasonSlice) : Z :=
  match slice with SSmallInt v => v | _ => 0 end.

(** ** Machine integers *)

Definition INT64_MIN : Z := - 2 ^ 63.
Definition INT64_MAX : Z := 2 ^ 63 - 1.
Definition UINT64_MAX : Z := 2 ^ 64 - 1.
Definition INT_MIN : Z := - 2 ^ 31.
Definition INT_MAX : Z := 2 ^ 31 - 1.

Definition is_int64 (v : Z) : Prop := INT64_MIN <= v <= INT64_MAX.
Definition is_uint64 (v : Z) : Prop := 0 <= v <= UINT64_MAX.
Definition is_int (v : Z) : Prop := INT_MIN <= v <= INT_MAX.

(** Two's complement wrap-around of an [int], and the conversion of an
    [int] to [size_t]. *)
Definition wrap_int (x : Z) : Z := (x + 2 ^ 31) mod 2 ^ 32 - 2 ^ 31.
Definition to_size_t (x : Z) : Z := x mod 2 ^ 64.

(** ** Bytes *)

Definition byte_val (c : ascii) : Z := Z.of_N (N_of_ascii c).

(** Conversion of an integer expression to [char], as [push_back] does. *)
Definition to_char (x : Z) : ascii := ascii_of_N (Z.to_N (x mod 256)).

Definition chr (c : ascii) : string := String c EmptyString.

Definition LF : ascii := to_char 10.
Definition DQUOTE : ascii := to_char 34.
Definition BACKSLASH : ascii := to_char 92.

(** ** The dumper's state and its monad *)

Inductive JasonException : Set :=
| InternalError
| InvalidUtf8Sequence
| NoJsonEquivalent.

Inductive UnsupportedTypeStrategy : Set :=
| StrategyNullify
| StrategyFail.

Record DumperState : Type := mkState {
  _buffer : string;
  _indentation : Z
}.

Definition M (A : Type) : Type :=
  DumperState -> (JasonException + A) * DumperState.

Definition ret {A} (a : A) : M A := fun st => (inr a, st).

Definition throw {A} (e : JasonException) : M A := fun st => (inl e, st).

Definition bind {A B} (m : M A) (k : A -> M B) : M B :=
  fun st =>
    match m st with
    | (inr a, st') => k a st'
    | (inl e, st') => (inl e, st')
    end.

Notation "m ;; k" := (bind m (fun _ => k))
  (at level 61, right associativity).

(** The buffer interface the dumper uses. *)
Definition push_back (c : ascii) : M unit :=
  fun st => (inr tt, mkState (_buffer st ++ chr c) (_indentation st)).

Definition append (s : string) : M unit :=
  fun st => (inr tt, mkState (_buffer st ++ s) (_indentation st)).

Definition reserve (n : Z) : M unit := ret tt.

Definition when (b : bool) (m : M unit) : M unit := if b then m else ret tt.

(** [++_indentation] and [--_indentation]. *)
Definition incr_indentation : M unit :=
  fun st => (inr tt, mkState (_buffer st) (wrap_int (_indentation st + 1))).

Definition decr_indentation : M unit :=
  fun st => (inr tt, mkState (_buffer st) (wrap_int (_indentation st - 1))).

Fixpoint spaces (n : nat) : string :=
  match n with
  | O => ""
  | S n' => "  " ++ spaces n'
  end.

(** [indent]: [n] times the two blanks, [n] being [_indentation] as a
    [size_t]. *)
Definition indent : M unit :=
  fun st =>
    let n := to_size_t (_indentation st) in
    (reserve n ;; append (spaces (Z.to_nat n))) st.

(** ** Integers *)

(** One line of the cascade on a [uint64_t]:
    [if (t <= v) push_back('0' + (v / t) % 10)]. *)
Definition digit_ge_u (t v : Z) : M unit :=
  when (t <=? v) (push_back (to_char (48 + (v / t) mod 10))).

(** The same on an [int64_t], where [/] and [%] truncate. *)
Definition digit_ge_s (t v : Z) : M unit :=
  when (t <=? v) (push_back (to_char (48 + Z.rem (Z.quot v t) 10))).

Definition dumpUInt (v : Z) : M unit :=
  digit_ge_u 10000000000000000000 v ;;
  digit_ge_u 1000000000000000000 v ;;
  digit_ge_u 100000000000000000 v ;;
  digit_ge_u 10000000000000000 v ;;
  digit_ge_u 1000000000000000 v ;;
  digit_ge_u 100000000000000 v ;;
  digit_ge_u 10000000000000 v ;;
  digit_ge_u 1000000000000 v ;;
  digit_ge_u 100000000000 v ;;
  digit_ge_u 10000000000 v ;;
  digit_ge_u 1000000000 v ;;
  digit_ge_u 100000000 v ;;
  digit_ge_u 10000000 v ;;
  digit_ge_u 1000000 v ;;
  digit_ge_u 100000 v ;;
  digit_ge_u 10000 v ;;
  digit_ge_u 1000 v ;;
  digit_ge_u 100 v ;;
  digit_ge_u 10 v ;;
  push_back (to_char (48 + v mod 10)).

(** The [Int] branch.  [v0] is the value read; after the sign and the test
    for [INT64_MIN] the code negates it, whatever its sign. *)
Definition dumpInt (v0 : Z) : M unit :=
  when (v0 <? 0) (push_back "-"%char) ;;
  if v0 =? INT64_MIN then
    append "9223372036854775808"
  else
    let v := - v0 in
    digit_ge_s 1000000000000000000 v ;;
    digit_ge_s 100000000000000000 v ;;
    digit_ge_s 10000000000000000 v ;;
    digit_ge_s 1000000000000000 v ;;
    digit_ge_s 100000000000000 v ;;
    digit_ge_s 10000000000000 v ;;
    digit_ge_s 1000000000000 v ;;
    digit_ge_s 100000000000 v ;;
    digit_ge_s 10000000000 v ;;
    digit_ge_s 1000000000 v ;;
    digit_ge_s 100000000 v ;;
    digit_ge_s 10000000 v ;;
    digit_ge_s 1000000 v ;;
    digit_ge_s 100000 v ;;
    digit_ge_s 10000 v ;;
    digit_ge_s 1000 v ;;
    digit_ge_s 100 v ;;
    digit_ge_s 10 v ;;
    push_back (to_char (48 + Z.rem v 10)).

Definition dumpSmallInt (v0 : Z) : M unit :=
  if v0 <? 0 then
    push_back "-"%char ;; push_back (to_char (48 + - v0))
  else
    push_back (to_char (48 + v0)).

Definition dumpInteger (slice : JasonSlice) : M unit :=
  if isType slice JasonType.UInt then dumpUInt (getUInt slice)
  else if isType slice JasonType.Int then dumpInt (getInt slice)
  else if isType slice JasonType.SmallInt then dumpSmallInt (getSmallInt slice)
  else throw InternalError.

(** ** Strings *)

Definition EscapeTable : list ascii :=
  let o := Ascii.zero in
  let u := "u"%char in let b := "b"%char in let t := "t"%char in
  let n := "n"%char in let f := "f"%char in let r := "r"%char in
  let q := DQUOTE in let s := "/"%char in let k := BACKSLASH in
  [ u; u; u; u; u; u; u; u; b; t; n; u; f; r; u; u;
    u; u; u; u; u; u; u; u; u; u; u; u; u; u; u; u;
    o; o; q; o; o; o; o; o; o; o; o; o; o; o; o; s;
    o; o; o; o; o; o; o; o; o; o; o; o; o; o; o; o;
    o; o; o; o; o; o; o; o; o; o; o; o; o; o; o; o;
    o; o; o; o; o; o; o; o; o; o; o; o; k; o; o; o;
    o; o; o; o; o; o; o; o; o; o; o; o; o; o; o; o;
    o; o; o; o; o; o; o; o; o; o; o; o; o; o; o; o;
    o; o; o; o; o; o; o; o; o; o; o; o; o; o; o; o;
    o; o; o; o; o; o; o; o; o; o; o; o; o; o; o; o;
    o; o; o; o; o; o; o; o; o; o; o; o; o; o; o; o;
    o; o; o; o; o; o; o; o; o; o; o; o; o; o; o; o;
    o; o; o; o; o; o; o; o; o; o; o; o; o; o; o; o;
    o; o; o; o; o; o; o; o; o; o; o; o; o; o; o; o;
    o; o; o; o; o; o; o; o; o; o; o; o; o; o; o; o;
    o; o; o; o; o; o; o; o; o; o; o; o; o; o; o; o ].

(** [(i < 10) ? ('0' + i) : ('A' + i - 10)] *)
Definition hex_digit (i : Z) : ascii :=
  to_char (if i <? 10 then 48 + i else 65 + i - 10).

(** The branch of the loop body for a byte with [(c & 0x80) == 0]. *)
Definition dumpAscii (c : ascii) : M unit :=
  let esc := nth (Z.to_nat (byte_val c)) EscapeTable Ascii.zero in
  if negb (Ascii.eqb esc Ascii.zero) then
    push_back BACKSLASH ;;
    push_back esc ;;
    when (Ascii.eqb esc "u")
      (let i1 := Z.shiftr (Z.land (byte_val c) 0xf0) 4 in
       let i2 := Z.land (byte_val c) 0x0f in
       append "00" ;;
       push_back (hex_digit i1) ;;
       push_back (hex_digit i2))
  else
    push_back c.

(** [dumpString src len]: the argument is the bytes from [p] to [e]; the
    loop ends when none is left.  [p + k >= e] holds when at most [k] bytes
    are left, the byte at [p] included. *)
Fixpoint dumpString (src : string) : M unit :=
  match src with
  | EmptyString => ret tt
  | String c rest =>
      if Z.land (byte_val c) 0x80 =? 0 then
        dumpAscii c ;; dumpString rest
      else if Z.land (byte_val c) 0xe0 =? 0xc0 then
        match rest with
        | String c1 rest' =>
            append (String c (String c1 "")) ;; dumpString rest'
        | _ => throw InvalidUtf8Sequence
        end
      else if Z.land (byte_val c) 0xf0 =? 0xe0 then
        match rest with
        | String c1 (String c2 rest') =>
            append (String c (String c1 (String c2 ""))) ;; dumpString rest'
        | _ => throw InvalidUtf8Sequence
        end
      else if Z.land (byte_val c) 0xf8 =? 0xf0 then
        match rest with
        | String c1 (String c2 (String c3 rest')) =>
            append (String c (String c1 (String c2 (String c3 "")))) ;;
            dumpString rest'
        | _ => throw InvalidUtf8Sequence
        end
      else
        dumpString rest
  end.

(** ** The traversal *)

(** The interception hook: it receives the buffer, the slice and its parent
    (absent for [nullptr]), may rewrite the buffer and says whether it
    handled the slice.  It sees the buffer only, not the dumper, and is
    taken to return. *)
Definition Callback : Type :=
  string -> JasonSlice -> option JasonSlice -> bool * string.

(** The loops over the members of an array or object.  [i] counts the
    members already visited and the list holds the members from [at(i)]
    on; [n] is [slice->length()].  Both are [JasonLength]; [i + 1] does not
    wrap, [i] being below [n]. *)
Section Loops.

Variable dumpMember : JasonSlice -> M unit.
Variable n : Z.

Fixpoint arrayPretty (i : Z) (members : list JasonSlice) : M unit :=
  match members with
  | [] => ret tt
  | x :: members' =>
      indent ;;
      dumpMember x ;;
      when (negb (i + 1 =? n)) (push_back ",") ;;
      push_back LF ;;
      arrayPretty (i + 1) members'
  end.

Fixpoint arrayCompact (i : Z) (members : list JasonSlice) : M unit :=
  match members with
  | [] => ret tt
  | x :: members' =>
      when (0 <? i) (push_back ",") ;;
      dumpMember x ;;
      arrayCompact (i + 1) members'
  end.

Fixpoint objectPretty (i : Z) (entries : list (JasonSlice * JasonSlice))
  : M unit :=
  match entries with
  | [] => ret tt
  | (k, v) :: entries' =>
      indent ;;
      dumpMember k ;;
      append " : " ;;
      dumpMember v ;;
      when (negb (i + 1 =? n)) (push_back ",") ;;
      push_back LF ;;
      objectPretty (i + 1) entries'
  end.

Fixpoint objectCompact (i : Z) (entries : list (JasonSlice * JasonSlice))
  : M unit :=
  match entries with
  | [] => ret tt
  | (k, v) :: entries' =>
      when (0 <? i) (push_back ",") ;;
      dumpMember k ;;
      push_back ":" ;;
      dumpMember v ;;
      objectCompact (i + 1) entries'
  end.

End Loops.

Section Dumper.

(** The template argument, the members fixed by the constructor and by
    [setCallback], and the external conversion of a finite double (at most
    24 bytes). *)
Variable PrettyPrint : bool.
Variable _strategy : UnsupportedTypeStrategy.
Variable _callback : option Callback.
Variable fpconv_dtoa : float -> string.

Definition handleUnsupportedType (slice : JasonSlice) : M unit :=
  match _strategy with
  | StrategyNullify => append "null"
  | StrategyFail => throw NoJsonEquivalent
  end.

(** [_callback && _callback(_buffer, slice, parent)] *)
Definition runCallback (slice : JasonSlice) (parent : option JasonSlice)
  : DumperState -> bool * DumperState :=
  fun st =>
    match _callback with
    | None => (false, st)
    | Some cb =>
        let (handled, buf) := cb (_buffer st) slice parent in
        (handled, mkState buf (_indentation st))
    end.

Fixpoint internalDump (slice : JasonSlice) (parent : option JasonSlice)
  {struct slice} : M unit :=
  fun st =>
    match runCallback slice parent st with
    | (true, st1) => (inr tt, st1)
    | (false, st1) =>
        (match slice with
         | SNone => handleUnsupportedType slice
         | SNull => append "null"
         | SBool b => if b then append "true" else append "false"
         | SArray members =>
             let n := Z.of_nat (List.length members) in
             if PrettyPrint then
               push_back "[" ;;
               push_back LF ;;
               incr_indentation ;;
               arrayPretty (fun x => internalDump x (Some slice)) n 0 members ;;
               decr_indentation ;;
               indent ;;
               push_back "]"
             else
               push_back "[" ;;
               arrayCompact (fun x => internalDump x (Some slice)) 0 members ;;
               push_back "]"
         | SObject entries =>
             let n := Z.of_nat (List.length entries) in
             if PrettyPrint then
               push_back "{" ;;
               push_back LF ;;
               incr_indentation ;;
               objectPretty (fun x => internalDump x (Some slice)) n 0 entries ;;
               decr_indentation ;;
               indent ;;
               push_back "}"
             else
               push_back "{" ;;
               objectCompact (fun x => internalDump x (Some slice)) 0 entries ;;
               push_back "}"
         | SDouble v =>
             if is_nan v || negb (is_finite v) then
               handleUnsupportedType slice
             else
               append (fpconv_dtoa v)
         | SUTCDate _ => handleUnsupportedType slice
         | SExternal external => internalDump external None
         | SMinKey | SMaxKey => handleUnsupportedType slice
         | SInt _ | SUInt _ | SSmallInt _ => dumpInteger slice
         | SString p =>
             reserve (2 + Z.of_nat (String.length p)) ;;
             push_back DQUOTE ;;
             dumpString p ;;
             push_back DQUOTE
         | SBinary _ => handleUnsupportedType slice
         | SBCD _ => handleUnsupportedType slice
         | SCustom _ => handleUnsupportedType slice
         end) st1
    end.

(** [dump], [append(slice)] and [appendString]. *)
Definition dump (slice : JasonSlice) : M unit :=
  fun st => internalDump slice None (mkState (_buffer st) 0).

Definition appendSlice (slice : JasonSlice) : M unit :=
  internalDump slice None.

Definition appendString (src : string) : M unit :=
  reserve (2 + Z.of_nat (String.length src)) ;;
  push_back DQUOTE ;;
  dumpString src ;;
  push_back DQUOTE.

End Dumper.

(** The static [Dump(slice, buffer, strategy)]: a fresh dumper on the
    buffer, without a hook, with indentation 0. *)
Definition Dump (PrettyPrint : bool) (fpconv_dtoa : float -> string)
  (slice : JasonSlice) (buffer : string) (strategy : UnsupportedTypeStrategy)
  : (JasonException + unit) * string :=
  let (r, st) :=
    internalDump PrettyPrint strategy None fpconv_dtoa slice None
      (mkState buffer 0) in
  (r, _buffer st).

(** ** The decimal text of an integer

    The reference for the integer claims is the Standard Library's decimal
    printer. *)

Definition decimal (v : Z) : string := NilZero.string_of_int (Z.to_int v).

(** ** Auxiliary definitions for the proofs *)

(** The text of a list of decimal digits, most significant first. *)
Definition digit_string (l : list digits) : string :=
  NilEmpty.string_of_uint (of_list l).

(** The digit [r] in front of a little-endian number. *)
Definition cons_digit (r : N) (d : uint) : uint :=
  match r with
  | 0 => D0 d | 1 => D1 d | 2 => D2 d | 3 => D3 d | 4 => D4 d
  | 5 => D5 d | 6 => D6 d | 7 => D7 d | 8 => D8 d | _ => D9 d
  end%N.

Definition digit_of (r : N) : digits :=
  match r with
  | 0 => d0 | 1 => d1 | 2 => d2 | 3 => d3 | 4 => d4
  | 5 => d5 | 6 => d6 | 7 => d7 | 8 => d8 | _ => d9
  end%N.

(** The character of the digit [r]: ['0' + r]. *)
Definition digit_char (r : Z) : ascii := to_char (48 + r).

(** What one line of the cascade appends, and what a list of thresholds
    appends. *)
Definition digit_ge (t v : Z) : string :=
  if t <=? v then chr (digit_char ((v / t) mod 10)) else "".

Fixpoint cascade (ts : list Z) (v : Z) : string :=
  match ts with
  | [] => ""
  | t :: ts' => digit_ge t v ++ cascade ts' v
  end.

(** The thresholds [10^k], ..., [10^1]. *)
Fixpoint pows (k : nat) : list Z :=
  match k with
  | O => []
  | S k' => 10 ^ Z.of_nat k :: pows k'
  end.

(** [emits m s]: the action [m] never throws and appends exactly [s]. *)
Definition emits (m : M unit) (s : string) : Prop :=
  forall st, m st = (inr tt, mkState (_buffer st ++ s) (_indentation st)).

(** Induction on slices that goes through the members of arrays and
    objects. *)
Section SliceInduction.

Variable P : JasonSlice -> Prop.

Hypothesis HNone : P SNone.
Hypothesis HNull : P SNull.
Hypothesis HBool : forall b, P (SBool b).
Hypothesis HArray : forall members, Forall P members -> P (SArray members).
Hypothesis HObject :
  forall entries,
    Forall (fun kv => P (fst kv) /\ P (snd kv)) entries -> P (SObject entries).
Hypothesis HDouble : forall v, P (SDouble v).
Hypothesis HUTCDate : forall v, P (SUTCDate v).
Hypothesis HExternal : forall target, P target -> P (SExternal target).
Hypothesis HMinKey : P SMinKey.
Hypothesis HMaxKey : P SMaxKey.
Hypothesis HInt : forall v, P (SInt v).
Hypothesis HUInt : forall v, P (SUInt v).
Hypothesis HSmallInt : forall v, P (SSmallInt v).
Hypothesis HString : forall p, P (SString p).
Hypothesis HBinary : forall p, P (SBinary p).
Hypothesis HBCD : forall p, P (SBCD p).
Hypothesis HCustom : forall p, P (SCustom p).

Fixpoint JasonSlice_nested_ind (s : JasonSlice) : P s :=
  match s with
  | SNone => HNone
  | SNull => HNull
  | SBool b => HBool b
  | SArray members =>
      HArray members
        ((fix go (l : list JasonSlice) : Forall P l :=
            match l with
            | [] => Forall_nil P
            | x :: l' => Forall_cons x (JasonSlice_nested_ind x) (go l')
            end) members)
  | SObject entries =>
      HObject entries
        ((fix go (l : list (JasonSlice * JasonSlice))
            : Forall (fun kv => P (fst kv) /\ P (snd kv)) l :=
            match l with
            | [] => Forall_nil _
            | (k, v) :: l' =>
                Forall_cons (k, v)
                  (conj (JasonSlice_nested_ind k) (JasonSlice_nested_ind v))
                  (go l')
            end) entries)
  | SDouble v => HDouble v
  | SUTCDate v => HUTCDate v
  | SExternal target => HExternal target (JasonSlice_nested_ind target)
  | SMinKey => HMinKey
  | SMaxKey => HMaxKey
  | SInt v => HInt v
  | SUInt v => HUInt v
  | SSmallInt v => HSmallInt v
  | SString p => HString p
  | SBinary p => HBinary p
  | SBCD p => HBCD p
  | SCustom p => HCustom p
  end.

End SliceInduction.

(** The nodes [internalDump] hands to [handleUnsupportedType]: the tags
    without a JSON form, and a double that is NaN or infinite. *)
Definition unrepresentable (slice : JasonSlice) : bool :=
  match slice with
  | SNone | SUTCDate _ | SBinary _ | SMinKey | SMaxKey | SBCD _ | SCustom _ =>
      true
  | SDouble v => is_nan v || is_infinity v
  | _ => false
  end.

Definition isComposite (slice : JasonSlice) : bool :=
  match slice with
  | SArray _ | SObject _ => true
  | _ => false
  end.

(** ** Bytes of a string, as the specification classifies them *)

(** High bit clear. *)
Definition isAscii (c : ascii) : bool := negb (Z.testbit (byte_val c) 7).

(** The length of the sequence a lead byte announces: [110xxxxx] two
    bytes, [1110xxxx] three, [11110xxx] four. *)
Definition leadLength (c : ascii) : option nat :=
  let v := byte_val c in
  if (0xC0 <=? v) && (v <=? 0xDF) then Some 2%nat
  else if (0xE0 <=? v) && (v <=? 0xEF) then Some 3%nat
  else if (0xF0 <=? v) && (v <=? 0xF7) then Some 4%nat
  else None.

(** An isolated continuation byte or an invalid lead byte. *)
Definition strayByte (c : ascii) : bool :=
  let v := byte_val c in
  (0x80 <=? v) && (v <=? 0xBF) || (0xF8 <=? v) && (v <=? 0xFF).

(** The short escapes: backspace, tab, newline, form feed, carriage
    return, double quote, backslash and slash. *)
Definition shortEscape (c : ascii) : option ascii :=
  match byte_val c with
  | 8 => Some "b"%char
  | 9 => Some "t"%char
  | 10 => Some "n"%char
  | 12 => Some "f"%char
  | 13 => Some "r"%char
  | 34 => Some DQUOTE
  | 92 => Some BACKSLASH
  | 47 => Some "/"%char
  | _ => None
  end.

Definition upperHex (i : Z) : ascii :=
  nth (Z.to_nat i) (list_ascii_of_string "0123456789ABCDEF") Ascii.zero.

(** The text of an ASCII byte in a JSON string body. *)
Definition escapedAscii (c : ascii) : string :=
  match shortEscape c with
  | Some e => String BACKSLASH (chr e)
  | None =>
      if byte_val c <=? 0x1F then
        String BACKSLASH
          (String "u" (String "0" (String "0"
            (String (upperHex (byte_val c / 16))
               (chr (upperHex (byte_val c mod 16)))))))
      else chr c
  end.

Fixpoint takeBytes (k : nat) (s : string) : string :=
  match k, s with
  | S k', String c s' => String c (takeBytes k' s')
  | _, _ => ""
  end.

Fixpoint dropBytes (k : nat) (s : string) : string :=
  match k, s with
  | S k', String c s' => dropBytes k' s'
  | _, _ => s
  end.

(** The branch of the loop body of [dumpString] that the masks select:
    1 for the table, 2, 3 and 4 for the sequences, 0 for none. *)
Definition maskClass (c : ascii) : nat :=
  if Z.land (byte_val c) 0x80 =? 0 then 1
  else if Z.land (byte_val c) 0xe0 =? 0xc0 then 2
  else if Z.land (byte_val c) 0xf0 =? 0xe0 then 3
  else if Z.land (byte_val c) 0xf8 =? 0xf0 then 4
  else 0.

(** [keepsIndentation m]: when [m] returns, [_indentation] has the value
    it had, provided that value was an [int]. *)
Definition keepsIndentation (m : M unit) : Prop :=
  forall st st',
    is_int (_indentation st) ->
    m st = (inr tt, st') ->
    _indentation st' = _indentation st.

(** [fixesIndentation m]: [m] does not touch [_indentation], thrown
    exceptions included. *)
Definition fixesIndentation (m : M unit) : Prop :=
  forall st r st', m st = (r, st') -> _indentation st' = _indentation st.

(** ** The layout of arrays and objects, as the specification words it *)

(** The lines of a pretty body: each item on a line of its own, after the
    indentation of its level, with a comma after every item but the last. *)
Fixpoint prettyLines (level : nat) (items : list string) : string :=
  match items with
  | [] => ""
  | x :: rest =>
      match rest with
      | [] => spaces level ++ x ++ chr LF
      | _ => spaces level ++ x ++ "," ++ chr LF ++ prettyLines level rest
      end
  end.

Section Layout.

(** The text of a node that is neither array nor object. *)
Variable scalarText : JasonSlice -> string.

(** Compact: no blanks, [,] between members, [:] between key and value. *)
Fixpoint compactText (slice : JasonSlice) : string :=
  match slice with
  | SArray members =>
      "[" ++ String.concat "," (map compactText members) ++ "]"
  | SObject entries =>
      "{" ++
      String.concat ","
        (map (fun kv => match kv with
                        | (k, v) => compactText k ++ ":" ++ compactText v
                        end) entries) ++
      "}"
  | SExternal target => compactText target
  | _ => scalarText slice
  end.

(** Pretty: two blanks per level, a member per line, [ : ] between key and
    value, the closing bracket on a line of its own at the level of the
    node. *)
Fixpoint prettyText (level : nat) (slice : JasonSlice) : string :=
  match slice with
  | SArray members =>
      "[" ++ chr LF ++
      prettyLines (S level) (map (prettyText (S level)) members) ++
      spaces level ++ "]"
  | SObject entries =>
      "{" ++ chr LF ++
      prettyLines (S level)
        (map (fun kv => match kv with
                        | (k, v) =>
                            prettyText (S level) k ++ " : " ++
                            prettyText (S level) v
                        end) entries) ++
      spaces level ++ "}"
  | SExternal target => prettyText level target
  | _ => scalarText slice
  end.

End Layout.

(** The nesting depth of arrays and objects in a slice. *)
Fixpoint depth (slice : JasonSlice) : nat :=
  match slice with
  | SArray members => S (list_max (map depth members))
  | SObject entries =>
      S (list_max
           (map (fun kv => match kv with
                           | (k, v) => Nat.max (depth k) (depth v)
                           end) entries))
  | SExternal target => depth target
  | _ => 0
  end.

(** What the dumper, without a hook, appends for a node dumped alone. *)
Definition scalarOutput (strategy : UnsupportedTypeStrategy)
  (fpconv_dtoa : float -> string) (slice : JasonSlice) : string :=
  _buffer
    (snd (internalDump false strategy None fpconv_dtoa slice None
            (mkState "" 0))).

(** [appender m]: [m] appends a text that does not depend on the state,
    and returns or throws whatever the state. *)
Definition appender (m : M unit) : Prop :=
  exists r s,
    forall st, m st = (r, mkState (_buffer st ++ s) (_indentation st)).

(** [writes m st s]: if [m] returns from [st], it has appended [s] and
    left the indentation as it was. *)
Definition writes (m : M unit) (st : DumperState) (s : string) : Prop :=
  forall st',
    m st = (inr tt, st') ->
    st' = mkState (_buffer st ++ s) (_indentation st).

(** The members after the first in a compact body. *)
Fixpoint commaPrefixed (items : list string) : string :=
  match items with
  | [] => ""
  | x :: rest => "," ++ x ++ commaPrefixed rest
  end.

(** ** Values used in the examples *)

(** A conversion of doubles for the examples, none of which dumps a finite
    double. *)
Definition dtoa_example (v : float) : string := "0".

(** A hook that handles every node by writing [#]. *)
Definition hook_example : Callback :=
  fun buf _ _ => (true, buf ++ "#").

Definition empty_state : DumperState := mkState "" 0.


(** ** Definitions for the further properties *)

(** A string of ASCII bytes, and the text of its escaped bytes. *)
Fixpoint allAscii (s : string) : bool :=
  match s with
  | EmptyString => true
  | String c rest => isAscii c && allAscii rest
  end.

Fixpoint escapedText (s : string) : string :=
  match s with
  | EmptyString => ""
  | String c rest => escapedAscii c ++ escapedText rest
  end.

(** A reader of JSON string bodies, used to show that escaping loses
    nothing: a backslash is followed by the letter of a short escape or by
    [u00] and two hexadecimal digits; other bytes stand for themselves. *)
Definition hexValue (c : ascii) : option Z :=
  let v := byte_val c in
  if (48 <=? v) && (v <=? 57) then Some (v - 48)
  else if (65 <=? v) && (v <=? 70) then Some (v - 55)
  else None.

Definition unescapeShort (e : ascii) : option ascii :=
  match byte_val e with
  | 98 => Some (to_char 8)
  | 116 => Some (to_char 9)
  | 110 => Some (to_char 10)
  | 102 => Some (to_char 12)
  | 114 => Some (to_char 13)
  | 34 => Some DQUOTE
  | 92 => Some BACKSLASH
  | 47 => Some "/"%char
  | _ => None
  end.

Fixpoint unescape (s : string) : option string :=
  match s with
  | EmptyString => Some ""
  | String c rest =>
      if Ascii.eqb c BACKSLASH then
        match rest with
        | EmptyString => None
        | String e rest1 =>
            if Ascii.eqb e "u" then
              match rest1 with
              | String z1 (String z2 (String h1 (String h2 rest2))) =>
                  match hexValue h1, hexValue h2, unescape rest2 with
                  | Some a, Some b, Some r =>
                      if Ascii.eqb z1 "0" && Ascii.eqb z2 "0"
                      then Some (String (to_char (16 * a + b)) r)
                      else None
                  | _, _, _ => None
                  end
              | _ => None
              end
            else
              match unescapeShort e, unescape rest1 with
              | Some x, Some r => Some (String x r)
              | _, _ => None
              end
        end
      else option_map (String c) (unescape rest)
  end.

(** [raisesOnly P m]: an exception that [m] throws satisfies [P]. *)
Definition raisesOnly (P : JasonException -> Prop) (m : M unit) : Prop :=
  forall st e st', m st = (inl e, st') -> P e.

(** [framed m]: the outcome of [m], the text it appends and the
    indentation it leaves depend on the indentation it finds, not on the
    buffer. *)
Definition framed (m : M unit) : Prop :=
  forall i, exists r out i',
    forall b, m (mkState b i) = (r, mkState (b ++ out) i').

(** [returns m]: [m] throws nothing. *)
Definition returns (m : M unit) : Prop :=
  forall st, fst (m st) = inr tt.

(** The strings of a slice, keys included, through [External]. *)
Fixpoint allStrings (P : string -> bool) (slice : JasonSlice) : bool :=
  match slice with
  | SString p => P p
  | SArray members => forallb (allStrings P) members
  | SObject entries =>
      forallb (fun kv => match kv with
                         | (k, v) => allStrings P k && allStrings P v
                         end) entries
  | SExternal target => allStrings P target
  | _ => true
  end.

(** A hook declines when it answers false and leaves the buffer as it
    is. *)
Definition declines (cb : Callback) : Prop :=
  forall buf slice parent, cb buf slice parent = (false, buf).

Definition declining_hook : Callback := fun buf _ _ => (false, buf).

(** A slice that holds, at any depth, a node without a JSON form. *)
Fixpoint hasUnrepresentable (slice : JasonSlice) : bool :=
  match slice with
  | SArray members => existsb hasUnrepresentable members
  | SObject entries =>
      existsb (fun kv => match kv with
                         | (k, v) => hasUnrepresentable k || hasUnrepresentable v
                         end) entries
  | SExternal target => hasUnrepresentable target
  | _ => unrepresentable slice
  end.

(** [returnsOnlyIf Q m]: [m] returns only when [Q] holds. *)
Definition returnsOnlyIf (Q : Prop) (m : M unit) : Prop :=
  forall st st', m st = (inr tt, st') -> Q.

(** Plain text: a sequence of units, each an ASCII byte that needs no
    escape or a lead byte with the bytes it announces, whatever these
    are. *)
Definition plainUnit (u : string) : bool :=
  match u with
  | EmptyString => false
  | String c tail =>
      if isAscii c then
        match tail with
        | EmptyString => String.eqb (escapedAscii c) (chr c)
        | _ => false
        end
      else
        match leadLength c with
        | Some k => Nat.eqb (String.length u) k
        | None => false
        end
  end.

Fixpoint joined (units : list string) : string :=
  match units with
  | [] => ""
  | u :: rest => u ++ joined rest
  end.

(** * Facts about strings *)

Lemma append_assoc (a b c : string) : ((a ++ b) ++ c = a ++ (b ++ c))%string.
Proof.
  induction a as [|x a IH]; simpl; [reflexivity|].
  now rewrite IH.
Qed.

Lemma append_empty_r (a : string) : (a ++ "" = a)%string.
Proof.
  induction a as [|x a IH]; simpl; [reflexivity|].
  now rewrite IH.
Qed.

(** * Decimal digits *)

Lemma digit_string_app (l l' : list digits) :
  digit_string (l ++ l') = (digit_string l ++ digit_string l')%string.
Proof.
  unfold digit_string.
  induction l as [|d l IH]; simpl; [reflexivity|].
  destruct d; simpl; now rewrite IH.
Qed.

Lemma string_of_uint_to_list (d : uint) :
  NilEmpty.string_of_uint d = digit_string (to_list d).
Proof.
  unfold digit_string. now rewrite of_list_to_list.
Qed.

Lemma N_lt_10_cases (r : N) :
  (r < 10)%N ->
  (r = 0 \/ r = 1 \/ r = 2 \/ r = 3 \/ r = 4 \/
   r = 5 \/ r = 6 \/ r = 7 \/ r = 8 \/ r = 9)%N.
Proof. lia. Qed.

Lemma of_lu_cons_digit (r : N) (d : uint) :
  (r < 10)%N ->
  Unsigned.of_lu (cons_digit r d) = (r + 10 * Unsigned.of_lu d)%N.
Proof.
  intros H. destruct (N_lt_10_cases r H) as [E|[E|[E|[E|[E|[E|[E|[E|[E|E]]]]]]]]];
    subst r; reflexivity.
Qed.

Lemma to_list_cons_digit (r : N) (d : uint) :
  to_list (cons_digit r d) = digit_of r :: to_list d.
Proof.
  destruct r as [|p]; [reflexivity|].
  do 4 (destruct p as [p|p|]; try reflexivity).
Qed.

(** A printed number is normalised and, unless it is zero, starts with a
    digit that is not [0]. *)
Lemma to_uint_normal (n : N) : unorm (N.to_uint n) = N.to_uint n.
Proof.
  rewrite <- (DecimalN.Unsigned.of_to n) at 2.
  now rewrite DecimalN.Unsigned.to_of.
Qed.

Lemma lunorm_fixed (l : list digits) :
  lunorm l = l -> l = lzero \/ lnzhead l = l.
Proof.
  unfold lunorm. destruct (lnzhead l) eqn:E; intros H; [left|right]; congruence.
Qed.

Lemma lnzhead_app_fixed (l l' : list digits) :
  l <> [] -> lnzhead l = l -> lnzhead (l ++ l') = (l ++ l')%list.
Proof.
  destruct l as [|d l]; [congruence|]. intros _.
  destruct d; simpl; try reflexivity.
  intros H. exfalso.
  pose proof (length_lnzhead l) as Hl. rewrite H in Hl. simpl in Hl. lia.
Qed.

Lemma to_uint_step (n : N) :
  (10 <= n)%N ->
  to_list (N.to_uint n) =
  (to_list (N.to_uint (n / 10)) ++ [digit_of (n mod 10)])%list.
Proof.
  intros Hn.
  set (m := (n / 10)%N). set (r := (n mod 10)%N).
  assert (Hr : (r < 10)%N) by (apply N.mod_lt; lia).
  assert (Hm : (m <> 0)%N).
  { unfold m. intros E. apply N.div_small_iff in E; lia. }
  set (x := cons_digit r (rev (N.to_uint m))).
  assert (Hx : N.of_uint (rev x) = n).
  { unfold N.of_uint. rewrite Unsigned.of_lu_rev. unfold x.
    rewrite of_lu_cons_digit by assumption.
    rewrite <- Unsigned.of_uint_alt.
    change (Pos.of_uint (N.to_uint m)) with (N.of_uint (N.to_uint m)).
    rewrite DecimalN.Unsigned.of_to. unfold m, r.
    rewrite (N.div_mod n 10) at 3 by lia. lia. }
  assert (Hlist : to_list (rev x) =
                  (to_list (N.to_uint m) ++ [digit_of r])%list).
  { rewrite rev_spec. unfold x. rewrite to_list_cons_digit. simpl.
    now rewrite rev_spec, List.rev_involutive. }
  rewrite <- Hx at 1. rewrite DecimalN.Unsigned.to_of.
  rewrite unorm_spec, Hlist.
  pose proof (to_uint_normal m) as Hnorm.
  apply (f_equal to_list) in Hnorm. rewrite unorm_spec in Hnorm.
  destruct (lunorm_fixed _ Hnorm) as [Hz|Hz].
  - exfalso. apply Hm.
    rewrite <- (DecimalN.Unsigned.of_to m).
    replace (N.to_uint m) with (D0 Nil); [reflexivity|].
    apply to_list_inj. now rewrite Hz.
  - unfold lunorm. rewrite lnzhead_app_fixed; trivial.
    + destruct (to_list (N.to_uint m)); reflexivity.
    + intros E. rewrite E in Hnorm. discriminate Hnorm.
Qed.

Lemma to_uint_nonnil (n : N) : N.to_uint n <> Nil.
Proof.
  rewrite <- to_uint_normal. apply unorm_nonnil.
Qed.

Lemma NilZero_string_of_uint (d : uint) :
  d <> Nil -> NilZero.string_of_uint d = digit_string (to_list d).
Proof.
  intros H. rewrite <- string_of_uint_to_list.
  destruct d; [congruence|reflexivity..].
Qed.

Lemma decimal_nonneg (v : Z) :
  0 <= v -> decimal v = NilZero.string_of_uint (N.to_uint (Z.to_N v)).
Proof.
  intros H. unfold decimal. destruct v as [|p|p]; try reflexivity. lia.
Qed.

Lemma decimal_neg (v : Z) :
  v < 0 -> decimal v = String "-" (decimal (- v)).
Proof.
  intros H. unfold decimal. destruct v as [|p|p]; try lia. reflexivity.
Qed.

Lemma Z_lt_10_cases (v : Z) :
  0 <= v < 10 ->
  v = 0 \/ v = 1 \/ v = 2 \/ v = 3 \/ v = 4 \/
  v = 5 \/ v = 6 \/ v = 7 \/ v = 8 \/ v = 9.
Proof. lia. Qed.

Lemma decimal_digit (v : Z) :
  0 <= v < 10 -> decimal v = chr (digit_char v).
Proof.
  intros H.
  destruct (Z_lt_10_cases v H) as [E|[E|[E|[E|[E|[E|[E|[E|[E|E]]]]]]]]];
    subst v; reflexivity.
Qed.

Lemma decimal_step (v : Z) :
  10 <= v ->
  decimal v = (decimal (v / 10) ++ chr (digit_char (v mod 10)))%string.
Proof.
  intros H.
  assert (0 <= v / 10) by (apply Z.div_pos; lia).
  rewrite !decimal_nonneg by lia.
  rewrite !NilZero_string_of_uint by apply to_uint_nonnil.
  rewrite to_uint_step by lia.
  rewrite digit_string_app.
  replace (Z.to_N (v / 10)) with (Z.to_N v / 10)%N
    by (rewrite Z2N.inj_div by lia; reflexivity).
  f_equal.
  assert (Hr : (Z.to_N v mod 10 = Z.to_N (v mod 10))%N)
    by (rewrite Z2N.inj_mod by lia; reflexivity).
  rewrite Hr.
  assert (Hm : 0 <= v mod 10 < 10) by (apply Z.mod_pos_bound; lia).
  destruct (Z_lt_10_cases _ Hm) as [E|[E|[E|[E|[E|[E|[E|[E|[E|E]]]]]]]]];
    rewrite E; reflexivity.
Qed.

(** * Actions that only append *)

Lemma state_eta (st : DumperState) :
  mkState (_buffer st) (_indentation st) = st.
Proof. now destruct st. Qed.

Lemma emits_ret : emits (ret tt) "".
Proof.
  intros st. unfold ret. now rewrite append_empty_r, state_eta.
Qed.

Lemma emits_push_back (c : ascii) : emits (push_back c) (chr c).
Proof. intros st. reflexivity. Qed.

Lemma emits_append (s : string) : emits (append s) s.
Proof. intros st. reflexivity. Qed.

Lemma emits_bind (m k : M unit) (a b : string) :
  emits m a -> emits k b -> emits (m ;; k) (a ++ b).
Proof.
  intros Hm Hk st. unfold bind. rewrite Hm, Hk. simpl.
  now rewrite append_assoc.
Qed.

Lemma emits_when (b : bool) (m : M unit) (s : string) :
  emits m s -> emits (when b m) (if b then s else "").
Proof.
  intros Hm. destruct b; [exact Hm | exact emits_ret].
Qed.

Lemma emits_eq (m : M unit) (s s' : string) :
  emits m s -> s = s' -> emits m s'.
Proof. now intros H <-. Qed.

(** * The cascade of thresholds *)

Lemma digit_ge_u_emits (t v : Z) : emits (digit_ge_u t v) (digit_ge t v).
Proof.
  unfold digit_ge_u, digit_ge.
  eapply emits_eq; [apply emits_when, emits_push_back|].
  reflexivity.
Qed.

Lemma digit_ge_s_emits (t v : Z) :
  0 < t -> 0 <= v -> emits (digit_ge_s t v) (digit_ge t v).
Proof.
  intros Ht Hv. unfold digit_ge_s.
  rewrite Z.quot_div_nonneg by lia.
  rewrite Z.rem_mod_nonneg; [apply digit_ge_u_emits| |lia].
  apply Z.div_pos; lia.
Qed.

Lemma digit_ge_tenfold (t v : Z) :
  0 < t -> 0 <= v -> digit_ge (10 * t) v = digit_ge t (v / 10).
Proof.
  intros Ht Hv. unfold digit_ge.
  rewrite <- Z.div_div by lia.
  replace (10 * t <=? v) with (t <=? v / 10); [reflexivity|].
  apply Bool.eq_iff_eq_true. rewrite !Z.leb_le.
  split; intros H.
  - pose proof (Z.mul_div_le v 10). lia.
  - apply Z.div_le_lower_bound; lia.
Qed.

Lemma cascade_pows_step (k : nat) (v : Z) :
  0 <= v ->
  cascade (pows (S k)) v =
  (cascade (pows k) (v / 10) ++ digit_ge 1 (v / 10))%string.
Proof.
  intros Hv. induction k as [|k IH].
  - change (cascade (pows 1) v) with (digit_ge (10 * 1) v ++ "")%string.
    rewrite digit_ge_tenfold by lia. now rewrite append_empty_r.
  - change (pows (S (S k))) with (10 ^ Z.of_nat (S (S k)) :: pows (S k)).
    cbn [cascade]. rewrite IH.
    replace (10 ^ Z.of_nat (S (S k))) with (10 * 10 ^ Z.of_nat (S k))
      by (rewrite (Nat2Z.inj_succ (S k)), Z.pow_succ_r by lia; reflexivity).
    rewrite digit_ge_tenfold by (try apply Z.pow_pos_nonneg; lia).
    change (pows (S k)) with (10 ^ Z.of_nat (S k) :: pows k).
    cbn [cascade]. now rewrite append_assoc.
Qed.

Lemma cascade_small (k : nat) (v : Z) :
  v < 10 -> cascade (pows k) v = "".
Proof.
  intros Hv. induction k as [|k IH]; [reflexivity|].
  cbn [pows cascade]. rewrite IH. unfold digit_ge.
  replace (10 ^ Z.of_nat (S k) <=? v) with false; [reflexivity|].
  symmetry. apply Z.leb_gt.
  rewrite Nat2Z.inj_succ, Z.pow_succ_r by lia.
  assert (0 < 10 ^ Z.of_nat k) by (apply Z.pow_pos_nonneg; lia). lia.
Qed.

Lemma digit_ge_one (w : Z) :
  1 <= w -> digit_ge 1 w = chr (digit_char (w mod 10)).
Proof.
  intros H. unfold digit_ge. rewrite Z.div_1_r.
  now replace (1 <=? w) with true by (symmetry; apply Z.leb_le; lia).
Qed.

(** The cascade from [10^k] down and the units digit print [v], when [v]
    has at most [k + 1] digits. *)
Lemma cascade_decimal (k : nat) :
  forall v, 0 <= v < 10 ^ Z.of_nat (S k) ->
  (cascade (pows k) v ++ chr (digit_char (v mod 10)))%string = decimal v.
Proof.
  induction k as [|k IH]; intros v Hv.
  - change (10 ^ Z.of_nat 1) with 10 in Hv. simpl.
    rewrite Z.mod_small by lia. now rewrite decimal_digit.
  - destruct (Z_lt_le_dec v 10) as [Hs|Hl].
    + rewrite cascade_small by assumption. simpl.
      rewrite Z.mod_small by lia. now rewrite decimal_digit by lia.
    + rewrite cascade_pows_step by lia.
      assert (Hw : 1 <= v / 10) by (apply Z.div_le_lower_bound; lia).
      rewrite digit_ge_one by assumption.
      rewrite decimal_step by assumption.
      rewrite <- IH; [reflexivity|].
      split; [lia|].
      apply Z.div_lt_upper_bound; [lia|].
      rewrite (Nat2Z.inj_succ (S k)), Z.pow_succ_r in Hv by lia. lia.
Qed.

Lemma pows_19 :
  pows 19 =
  [10000000000000000000; 1000000000000000000; 100000000000000000;
   10000000000000000; 1000000000000000; 100000000000000; 10000000000000;
   1000000000000; 100000000000; 10000000000; 1000000000; 100000000;
   10000000; 1000000; 100000; 10000; 1000; 100; 10].
Proof. reflexivity. Qed.

Lemma dumpUInt_cascade (v : Z) :
  emits (dumpUInt v) (cascade (pows 19) v ++ chr (digit_char (v mod 10))).
Proof.
  eapply emits_eq.
  - unfold dumpUInt.
    repeat (eapply emits_bind; [apply digit_ge_u_emits|]).
    apply emits_push_back.
  - rewrite pows_19. cbn [cascade].
    rewrite !append_assoc. reflexivity.
Qed.
Lemma pows_18 :
  pows 18 =
  [1000000000000000000; 100000000000000000;
   10000000000000000; 1000000000000000; 100000000000000; 10000000000000;
   1000000000000; 100000000000; 10000000000; 1000000000; 100000000;
   10000000; 1000000; 100000; 10000; 1000; 100; 10].
Proof. reflexivity. Qed.

Lemma dumpUInt_decimal (v : Z) :
  is_uint64 v -> emits (dumpUInt v) (decimal v).
Proof.
  intros [Hlo Hhi]. eapply emits_eq; [apply dumpUInt_cascade|].
  apply cascade_decimal. unfold UINT64_MAX in Hhi.
  change (10 ^ Z.of_nat 20) with 100000000000000000000. lia.
Qed.

(** The [Int] branch prints every value that is not positive. *)
Lemma dumpInt_nonpositive (v : Z) :
  INT64_MIN <= v <= 0 -> emits (dumpInt v) (decimal v).
Proof.
  intros [Hlo Hhi]. unfold dumpInt.
  destruct (Z.eqb_spec v INT64_MIN) as [E|E].
  - subst v. eapply emits_eq.
    + eapply emits_bind; [apply emits_when, emits_push_back|apply emits_append].
    + reflexivity.
  - unfold INT64_MIN in *. cbv zeta. eapply emits_eq.
    + eapply emits_bind; [apply emits_when, emits_push_back|].
      repeat (eapply emits_bind; [apply digit_ge_s_emits; lia|]).
      rewrite Z.rem_mod_nonneg by lia. apply emits_push_back.
    + assert (Hc : (cascade (pows 18) (- v) ++ chr (digit_char (- v mod 10)))%string
                   = decimal (- v)).
      { apply cascade_decimal.
        change (10 ^ Z.of_nat 19) with 10000000000000000000. lia. }
      rewrite pows_18 in Hc. cbn [cascade] in Hc.
      rewrite !append_assoc in Hc. cbn [String.append] in Hc.
      unfold digit_char in Hc. rewrite Hc.
      destruct (Z.ltb_spec v 0) as [Hn|Hn].
      * now rewrite (decimal_neg v).
      * now replace v with 0 by lia.
Qed.

(** On a positive value the [Int] branch negates the value all the same:
    no threshold is reached and the units digit is computed from [- v]. *)
Lemma digit_ge_s_below (t w : Z) : w < t -> digit_ge_s t w = ret tt.
Proof.
  intros H. unfold digit_ge_s.
  now replace (t <=? w) with false by (symmetry; apply Z.leb_gt; lia).
Qed.

Lemma dumpInt_positive (v : Z) :
  0 < v -> emits (dumpInt v) (chr (to_char (48 - v mod 10))).
Proof.
  intros Hv. unfold dumpInt.
  replace (v <? 0) with false by (symmetry; apply Z.ltb_ge; lia).
  replace (v =? INT64_MIN) with false
    by (symmetry; apply Z.eqb_neq; unfold INT64_MIN; lia).
  cbv zeta. rewrite !digit_ge_s_below by lia.
  eapply emits_eq.
  - eapply emits_bind; [apply emits_when, emits_push_back|].
    repeat (eapply emits_bind; [apply emits_ret|]).
    apply emits_push_back.
  - cbn [String.append]. do 2 f_equal.
    rewrite Z.rem_opp_l by lia. rewrite Z.rem_mod_nonneg by lia. lia.
Qed.

Lemma dumpSmallInt_decimal (v : Z) :
  -9 <= v <= 9 -> emits (dumpSmallInt v) (decimal v).
Proof.
  intros H. unfold dumpSmallInt.
  destruct (Z.ltb_spec v 0) as [Hn|Hn].
  - eapply emits_eq; [eapply emits_bind; apply emits_push_back|].
    rewrite (decimal_neg v) by assumption.
    rewrite (decimal_digit (- v)) by lia. reflexivity.
  - eapply emits_eq; [apply emits_push_back|].
    now rewrite (decimal_digit v) by lia.
Qed.
(** * The monad *)

Lemma bind_ok {A} (m : M unit) (k : M A) (st st' : DumperState) (a : A) :
  (m ;; k) st = (inr a, st') ->
  exists st1, m st = (inr tt, st1) /\ k st1 = (inr a, st').
Proof.
  unfold bind. destruct (m st) as [[e|[]] st1]; intros H; [discriminate|].
  now exists st1.
Qed.

Lemma wrap_int_is_int (x : Z) : is_int (wrap_int x).
Proof.
  unfold is_int, wrap_int, INT_MIN, INT_MAX.
  pose proof (Z.mod_pos_bound (x + 2 ^ 31) (2 ^ 32) ltac:(lia)). lia.
Qed.

Lemma wrap_int_small (x : Z) : is_int x -> wrap_int x = x.
Proof.
  unfold is_int, wrap_int, INT_MIN, INT_MAX. intros H.
  rewrite Z.mod_small; lia.
Qed.

Lemma wrap_int_incr_decr (x : Z) :
  is_int x -> wrap_int (wrap_int (x + 1) - 1) = x.
Proof.
  intros H. unfold wrap_int at 1.
  replace (wrap_int (x + 1) - 1 + 2 ^ 31)
    with ((x + 1 + 2 ^ 31) mod 2 ^ 32 - 1) by (unfold wrap_int; lia).
  rewrite Zminus_mod_idemp_l.
  replace (x + 1 + 2 ^ 31 - 1) with (x + 2 ^ 31) by lia.
  unfold is_int, INT_MIN, INT_MAX in H. rewrite Z.mod_small; lia.
Qed.

(** * The interception hook and the dispatch *)

Section DumperFacts.

Variable PrettyPrint : bool.
Variable _strategy : UnsupportedTypeStrategy.
Variable _callback : option Callback.
Variable fpconv_dtoa : float -> string.

Notation internalDump' :=
  (internalDump PrettyPrint _strategy _callback fpconv_dtoa).
Notation runCallback' := (runCallback _callback).

Lemma runCallback_indentation slice parent st handled st1 :
  runCallback' slice parent st = (handled, st1) ->
  _indentation st1 = _indentation st.
Proof.
  unfold runCallback. destruct _callback as [cb|].
  - destruct (cb (_buffer st) slice parent) as [h buf].
    intros [= _ <-]. reflexivity.
  - intros [= _ <-]. reflexivity.
Qed.

Lemma internalDump_handled slice parent st st1 :
  runCallback' slice parent st = (true, st1) ->
  internalDump' slice parent st = (inr tt, st1).
Proof.
  intros H. destruct slice; simpl; rewrite H; reflexivity.
Qed.

Lemma not_finite_iff (v : float) :
  is_nan v || negb (is_finite v) = is_nan v || is_infinity v.
Proof.
  unfold is_finite. rewrite negb_involutive.
  destruct (is_nan v), (is_infinity v); reflexivity.
Qed.

Lemma handleUnsupportedType_run slice st :
  handleUnsupportedType _strategy slice st =
  match _strategy with
  | StrategyNullify =>
      (inr tt, mkState (_buffer st ++ "null") (_indentation st))
  | StrategyFail => (inl NoJsonEquivalent, st)
  end.
Proof. unfold handleUnsupportedType. destruct _strategy; reflexivity. Qed.

(** C3: a node without a JSON form (None, UTCDate, Binary, MinKey, MaxKey,
    BCD, Custom, or a Double that is NaN or infinite) that the hook leaves
    to the dumper gets the text null under [StrategyNullify]; under
    [StrategyFail] the dump throws [NoJsonEquivalent] and the buffer gets
    nothing for the node. *)
Theorem unsupported_type_policy slice parent st st1 :
  unrepresentable slice = true ->
  runCallback _callback slice parent st = (false, st1) ->
  internalDump PrettyPrint _strategy _callback fpconv_dtoa slice parent st =
  match _strategy with
  | StrategyNullify =>
      (inr tt, mkState (_buffer st1 ++ "null") (_indentation st1))
  | StrategyFail => (inl NoJsonEquivalent, st1)
  end.
Proof.
  intros Hu Hcb.
  destruct slice; try discriminate Hu; simpl; rewrite Hcb;
    try apply handleUnsupportedType_run.
  simpl in Hu. rewrite not_finite_iff, Hu.
  apply handleUnsupportedType_run.
Qed.

(** C8: when a hook is set, [internalDump] first calls it with the buffer,
    the node and the parent; if the hook answers true, the dump of the node
    is over: the buffer is the one the hook left, the indentation is
    unchanged, and nothing is raised. *)
Theorem callback_handles_node cb slice parent st buf :
  _callback = Some cb ->
  cb (_buffer st) slice parent = (true, buf) ->
  internalDump PrettyPrint _strategy _callback fpconv_dtoa slice parent st
  = (inr tt, mkState buf (_indentation st)).
Proof.
  intros Hset Hcb. apply internalDump_handled.
  unfold runCallback. rewrite Hset, Hcb. reflexivity.
Qed.

Lemma internalDump_external target parent st st1 :
  runCallback' (SExternal target) parent st = (false, st1) ->
  internalDump' (SExternal target) parent st = internalDump' target None st1.
Proof.
  intros Hcb. simpl. rewrite Hcb. destruct target; reflexivity.
Qed.

(** C10: an [External] node that the hook leaves to the dumper adds nothing
    of its own: the dump goes on with the slice it refers to, with no
    parent, from the state the hook left, so that the text appended is the
    text of that slice. *)
Theorem external_dumps_target target parent st st1 :
  runCallback _callback (SExternal target) parent st = (false, st1) ->
  internalDump PrettyPrint _strategy _callback fpconv_dtoa
    (SExternal target) parent st
  = internalDump PrettyPrint _strategy _callback fpconv_dtoa target None st1.
Proof. apply internalDump_external. Qed.

End DumperFacts.
(** * The string escaper *)

Ltac each_byte c := destruct c as [[] [] [] [] [] [] [] []].

Lemma maskClass_spec (c : ascii) :
  maskClass c =
  if isAscii c then 1%nat
  else match leadLength c with Some k => k | None => 0%nat end.
Proof. each_byte c; reflexivity. Qed.

Lemma strayByte_spec (c : ascii) :
  strayByte c = negb (isAscii c) &&
                match leadLength c with Some _ => false | None => true end.
Proof. each_byte c; reflexivity. Qed.

Lemma dumpString_cons (c : ascii) (rest : string) :
  dumpString (String c rest) =
  match maskClass c with
  | 1%nat => dumpAscii c ;; dumpString rest
  | 2%nat =>
      match rest with
      | String c1 rest' =>
          append (String c (String c1 "")) ;; dumpString rest'
      | _ => throw InvalidUtf8Sequence
      end
  | 3%nat =>
      match rest with
      | String c1 (String c2 rest') =>
          append (String c (String c1 (String c2 ""))) ;; dumpString rest'
      | _ => throw InvalidUtf8Sequence
      end
  | 4%nat =>
      match rest with
      | String c1 (String c2 (String c3 rest')) =>
          append (String c (String c1 (String c2 (String c3 "")))) ;;
          dumpString rest'
      | _ => throw InvalidUtf8Sequence
      end
  | _ => dumpString rest
  end.
Proof.
  unfold maskClass. cbn [dumpString].
  destruct (Z.land (byte_val c) 128 =? 0); [reflexivity|].
  destruct (Z.land (byte_val c) 224 =? 192); [reflexivity|].
  destruct (Z.land (byte_val c) 240 =? 224); [reflexivity|].
  destruct (Z.land (byte_val c) 248 =? 240); reflexivity.
Qed.

(** What [dumpAscii] appends, read off its branches. *)
Lemma dumpAscii_emits (c : ascii) :
  emits (dumpAscii c)
    (let esc := nth (Z.to_nat (byte_val c)) EscapeTable Ascii.zero in
     if negb (Ascii.eqb esc Ascii.zero) then
       chr BACKSLASH ++ chr esc ++
       (if Ascii.eqb esc "u" then
          "00" ++ chr (hex_digit (Z.shiftr (Z.land (byte_val c) 0xf0) 4)) ++
          chr (hex_digit (Z.land (byte_val c) 0x0f))
        else "")
     else chr c).
Proof.
  unfold dumpAscii. cbv zeta.
  destruct (negb (Ascii.eqb _ Ascii.zero)).
  - repeat (eapply emits_bind; [apply emits_push_back|]).
    apply emits_when.
    repeat (eapply emits_bind;
            [first [apply emits_append | apply emits_push_back]|]).
    apply emits_push_back.
  - apply emits_push_back.
Qed.

Lemma dumpAscii_escaped (c : ascii) :
  isAscii c = true -> emits (dumpAscii c) (escapedAscii c).
Proof.
  intros H. eapply emits_eq; [apply dumpAscii_emits|].
  each_byte c; try discriminate H; reflexivity.
Qed.

Lemma bind_emits (m k : M unit) (s : string) (st : DumperState) :
  emits m s ->
  (m ;; k) st = k (mkState (_buffer st ++ s) (_indentation st)).
Proof. intros H. unfold bind. now rewrite H. Qed.

(** A prefix that is scanned to its end leaves the scan at the byte that
    follows it. *)
Lemma dumpString_app_len (n : nat) :
  forall pre suf st st1,
    (String.length pre <= n)%nat ->
    dumpString pre st = (inr tt, st1) ->
    dumpString (pre ++ suf) st = dumpString suf st1.
Proof.
  induction n as [|n IH]; intros pre suf st st1 Hlen Hpre.
  - destruct pre; [|simpl in Hlen; lia].
    simpl in *. now injection Hpre as <-.
  - destruct pre as [|c pre]; [simpl in *; now injection Hpre as <-|].
    simpl in Hlen. change (String c pre ++ suf)%string with (String c (pre ++ suf)).
    rewrite dumpString_cons in Hpre. rewrite dumpString_cons.
    destruct (maskClass c) as [|[|[|[|[|k]]]]].
    + apply IH; [lia|assumption].
    + rewrite (bind_emits _ _ _ _ (dumpAscii_emits c)) in Hpre.
      rewrite (bind_emits _ _ _ _ (dumpAscii_emits c)).
      apply IH; [lia|assumption].
    + destruct pre as [|c1 pre]; [discriminate Hpre|].
      simpl in Hlen. cbn [String.append].
      rewrite (bind_emits _ _ _ _ (emits_append _)) in Hpre.
      rewrite (bind_emits _ _ _ _ (emits_append _)).
      apply IH; [lia|assumption].
    + destruct pre as [|c1 [|c2 pre]]; try discriminate Hpre.
      simpl in Hlen. cbn [String.append].
      rewrite (bind_emits _ _ _ _ (emits_append _)) in Hpre.
      rewrite (bind_emits _ _ _ _ (emits_append _)).
      apply IH; [lia|assumption].
    + destruct pre as [|c1 [|c2 [|c3 pre]]]; try discriminate Hpre.
      simpl in Hlen. cbn [String.append].
      rewrite (bind_emits _ _ _ _ (emits_append _)) in Hpre.
      rewrite (bind_emits _ _ _ _ (emits_append _)).
      apply IH; [lia|assumption].
    + apply IH; [lia|assumption].
Qed.

Lemma dumpString_app (pre suf : string) (st st1 : DumperState) :
  dumpString pre st = (inr tt, st1) ->
  dumpString (pre ++ suf) st = dumpString suf st1.
Proof. apply (dumpString_app_len (String.length pre)). lia. Qed.

(** C2, as the code has it: a byte that is neither ASCII nor the lead byte
    of a two-, three- or four-byte sequence (0x80-0xBF, 0xF8-0xFF) is
    skipped; the escaper appends nothing for it, raises nothing and goes on
    with the next byte. *)
Theorem stray_byte_is_skipped pre c rest st st1 :
  dumpString pre st = (inr tt, st1) ->
  strayByte c = true ->
  dumpString (pre ++ String c rest) st = dumpString rest st1.
Proof.
  intros Hpre Hc. rewrite (dumpString_app _ _ _ _ Hpre).
  rewrite dumpString_cons, maskClass_spec.
  rewrite strayByte_spec in Hc.
  destruct (isAscii c); [discriminate Hc|].
  destruct (leadLength c); [discriminate Hc|reflexivity].
Qed.

(** C2, as stated, fails: it would have the byte 0x80 copied, and the
    string of that single byte is dumped as the empty text. *)
Lemma stray_byte_not_copied :
  ~ (forall c rest st,
        strayByte c = true ->
        dumpString (String c rest) st =
        dumpString rest (mkState (_buffer st ++ chr c) (_indentation st))).
Proof.
  intros H.
  specialize (H (to_char 0x80) "" (mkState "" 0) eq_refl).
  discriminate H.
Qed.

Lemma leadLength_range (c : ascii) (k : nat) :
  leadLength c = Some k -> isAscii c = false /\ (k = 2 \/ k = 3 \/ k = 4)%nat.
Proof.
  unfold leadLength. cbv zeta. intros H. split.
  - each_byte c; try reflexivity; discriminate H.
  - repeat match type of H with
           | (if ?b then _ else _) = _ => destruct b
           end; inversion H; auto.
Qed.

(** C4, for the bytes the scan arrives at: when the scan is at a byte that
    announces a sequence of [k] bytes (k = 2, 3, 4) and fewer than [k]
    bytes are left, that byte included, [dumpString] throws
    [InvalidUtf8Sequence]; otherwise it appends the [k] bytes as they are,
    whatever the bytes after the first, and goes on after them. *)
Theorem lead_byte_sequence pre c rest st st1 k :
  dumpString pre st = (inr tt, st1) ->
  leadLength c = Some k ->
  dumpString (pre ++ String c rest) st =
  if (String.length (String c rest) <? k)%nat then
    (inl InvalidUtf8Sequence, st1)
  else
    dumpString (dropBytes k (String c rest))
      (mkState (_buffer st1 ++ takeBytes k (String c rest)) (_indentation st1)).
Proof.
  intros Hpre Hc. rewrite (dumpString_app _ _ _ _ Hpre).
  rewrite dumpString_cons, maskClass_spec.
  destruct (leadLength_range c k Hc) as [Ha Hk]. rewrite Ha, Hc.
  destruct Hk as [->|[->| ->]].
  - destruct rest as [|c1 rest]; reflexivity.
  - destruct rest as [|c1 [|c2 rest]]; reflexivity.
  - destruct rest as [|c1 [|c2 [|c3 rest]]]; reflexivity.
Qed.

(** C4, as stated, fails for a lead byte that follows a lead byte: it is
    copied with the sequence before it and never looked at.  In the string
    of the bytes 0xC3 0xC3 the second byte announces two bytes where one is
    left, and in 0x61 0xC3 0xE2 0x82 the byte 0xE2 announces three where
    two are left; the first string is dumped as it is, the second without
    its last byte, and nothing is thrown. *)
Lemma lead_after_lead_not_rejected :
  ~ (forall pre c rest st k,
        leadLength c = Some k ->
        (String.length (String c rest) < k)%nat ->
        fst (dumpString (pre ++ String c rest) st)
        = inl InvalidUtf8Sequence) /\
  dumpString (String (to_char 0xC3) (chr (to_char 0xC3))) (mkState "" 0)
  = (inr tt, mkState (String (to_char 0xC3) (chr (to_char 0xC3))) 0) /\
  dumpString
    (String (to_char 0x61) (String (to_char 0xC3)
       (String (to_char 0xE2) (chr (to_char 0x82)))))
    (mkState "" 0)
  = (inr tt,
     mkState
       (String (to_char 0x61) (String (to_char 0xC3) (chr (to_char 0xE2))))
       0).
Proof.
  split; [|split; reflexivity].
  intros H.
  specialize (H (chr (to_char 0xC3)) (to_char 0xC3) "" (mkState "" 0) 2%nat
                eq_refl).
  cbn in H. specialize (H (le_n 2)). discriminate H.
Qed.

(** C7, for the bytes the scan looks at: an ASCII byte at which the scan
    arrives is replaced by its short escape, by [\u00XX] with two upper-case
    hexadecimal digits when it is another control code, and is copied
    otherwise. *)
Theorem ascii_byte_escaped pre c rest st st1 :
  dumpString pre st = (inr tt, st1) ->
  isAscii c = true ->
  dumpString (pre ++ String c rest) st =
  dumpString rest
    (mkState (_buffer st1 ++ escapedAscii c) (_indentation st1)).
Proof.
  intros Hpre Hc. rewrite (dumpString_app _ _ _ _ Hpre).
  rewrite dumpString_cons, maskClass_spec, Hc.
  apply bind_emits, dumpAscii_escaped, Hc.
Qed.

(** C7, as stated, fails for an ASCII byte that follows a lead byte: in
    the string of the bytes 0xC3 0x22 the double quote is copied with the
    lead byte, not escaped. *)
Lemma ascii_after_lead_not_escaped :
  isAscii DQUOTE = true /\
  escapedAscii DQUOTE = String BACKSLASH (chr DQUOTE) /\
  dumpString (String (to_char 0xC3) (chr DQUOTE)) (mkState "" 0)
  = (inr tt, mkState (String (to_char 0xC3) (chr DQUOTE)) 0) /\
  dumpString (String (to_char 0xC3) (chr DQUOTE)) (mkState "" 0)
  <> (inr tt,
      mkState (String (to_char 0xC3) (escapedAscii DQUOTE)) 0).
Proof. repeat split. discriminate. Qed.
(** * The indentation *)

Lemma fixes_keeps (m : M unit) : fixesIndentation m -> keepsIndentation m.
Proof. intros H st st' _ E. exact (H _ _ _ E). Qed.

Lemma fixes_ret : fixesIndentation (ret tt).
Proof. intros st r st' [= _ <-]. reflexivity. Qed.

Lemma fixes_throw e : fixesIndentation (throw e).
Proof. intros st r st' [= _ <-]. reflexivity. Qed.

Lemma fixes_push_back c : fixesIndentation (push_back c).
Proof. intros st r st' [= _ <-]. reflexivity. Qed.

Lemma fixes_append s : fixesIndentation (append s).
Proof. intros st r st' [= _ <-]. reflexivity. Qed.

Lemma fixes_indent : fixesIndentation indent.
Proof. intros st r st' [= _ <-]. reflexivity. Qed.

Lemma fixes_when b m : fixesIndentation m -> fixesIndentation (when b m).
Proof. destruct b; [trivial|intros _; apply fixes_ret]. Qed.

Lemma fixes_bind (m k : M unit) :
  fixesIndentation m -> fixesIndentation k -> fixesIndentation (m ;; k).
Proof.
  intros Hm Hk st r st'. unfold bind.
  destruct (m st) as [[e|[]] st1] eqn:E; intros H.
  - injection H as _ <-. exact (Hm _ _ _ E).
  - rewrite (Hk _ _ _ H). exact (Hm _ _ _ E).
Qed.

Lemma fixes_emits (m : M unit) (s : string) : emits m s -> fixesIndentation m.
Proof. intros H st r st'. rewrite H. intros [= _ <-]. reflexivity. Qed.

Create HintDb indentation.

#[local] Hint Resolve fixes_ret fixes_throw fixes_push_back fixes_append
  fixes_indent fixes_when fixes_bind : indentation.

Lemma fixes_dumpAscii c : fixesIndentation (dumpAscii c).
Proof. exact (fixes_emits _ _ (dumpAscii_emits c)). Qed.

Lemma fixes_dumpString_len (n : nat) :
  forall src, (String.length src <= n)%nat -> fixesIndentation (dumpString src).
Proof.
  induction n as [|n IH]; intros src Hlen.
  - destruct src; [apply fixes_ret|simpl in Hlen; lia].
  - destruct src as [|c src]; [apply fixes_ret|]. simpl in Hlen.
    rewrite dumpString_cons.
    destruct (maskClass c) as [|[|[|[|[|k]]]]].
    + apply IH; lia.
    + apply fixes_bind; [apply fixes_dumpAscii|apply IH; lia].
    + destruct src as [|c1 src]; [apply fixes_throw|]. simpl in Hlen.
      apply fixes_bind; [apply fixes_append|apply IH; lia].
    + destruct src as [|c1 [|c2 src]]; try apply fixes_throw. simpl in Hlen.
      apply fixes_bind; [apply fixes_append|apply IH; lia].
    + destruct src as [|c1 [|c2 [|c3 src]]]; try apply fixes_throw.
      simpl in Hlen.
      apply fixes_bind; [apply fixes_append|apply IH; lia].
    + apply IH; lia.
Qed.

Lemma fixes_dumpString src : fixesIndentation (dumpString src).
Proof. apply (fixes_dumpString_len (String.length src)). lia. Qed.

Lemma fixes_digit_ge_u t v : fixesIndentation (digit_ge_u t v).
Proof. apply fixes_when, fixes_push_back. Qed.

Lemma fixes_digit_ge_s t v : fixesIndentation (digit_ge_s t v).
Proof. apply fixes_when, fixes_push_back. Qed.

Lemma fixes_dumpInteger slice : fixesIndentation (dumpInteger slice).
Proof.
  destruct slice; try apply fixes_throw;
    unfold dumpInteger; cbn [isType type JasonType.eqb getInt getUInt getSmallInt].
  - unfold dumpInt. apply fixes_bind; [auto with indentation|].
    destruct (v =? INT64_MIN); [apply fixes_append|]. cbv zeta.
    repeat (apply fixes_bind; [apply fixes_digit_ge_s|]).
    apply fixes_push_back.
  - unfold dumpUInt.
    repeat (apply fixes_bind; [apply fixes_digit_ge_u|]).
    apply fixes_push_back.
  - unfold dumpSmallInt. destruct (v <? 0); auto with indentation.
Qed.

Lemma keeps_bind (m k : M unit) :
  keepsIndentation m -> keepsIndentation k -> keepsIndentation (m ;; k).
Proof.
  intros Hm Hk st st' Hint H.
  apply bind_ok in H as (st1 & H1 & H2).
  pose proof (Hm _ _ Hint H1) as E1.
  rewrite <- E1. apply Hk; [now rewrite E1|assumption].
Qed.

Lemma keeps_if (b : bool) (m1 m2 : M unit) :
  keepsIndentation m1 -> keepsIndentation m2 ->
  keepsIndentation (if b then m1 else m2).
Proof. now destruct b. Qed.

#[local] Hint Resolve fixes_keeps keeps_bind fixes_dumpString
  fixes_dumpInteger : indentation.

Section Loops.

Variable dumpMember : JasonSlice -> M unit.
Variable n : Z.

Lemma keeps_arrayPretty members :
  Forall (fun x => keepsIndentation (dumpMember x)) members ->
  forall i, keepsIndentation (arrayPretty dumpMember n i members).
Proof.
  induction 1 as [|x members Hx _ IH]; intros i; cbn [arrayPretty];
    auto 10 with indentation.
Qed.

Lemma keeps_arrayCompact members :
  Forall (fun x => keepsIndentation (dumpMember x)) members ->
  forall i, keepsIndentation (arrayCompact dumpMember i members).
Proof.
  induction 1 as [|x members Hx _ IH]; intros i; cbn [arrayCompact];
    auto 10 with indentation.
Qed.

Lemma keeps_objectPretty entries :
  Forall (fun kv => keepsIndentation (dumpMember (fst kv)) /\
                    keepsIndentation (dumpMember (snd kv))) entries ->
  forall i, keepsIndentation (objectPretty dumpMember n i entries).
Proof.
  induction 1 as [|[k v] entries Hkv _ IH]; intros i;
    cbn [objectPretty]; [auto with indentation|].
  destruct Hkv as [Hk Hv]. simpl in Hk, Hv. auto 12 with indentation.
Qed.

Lemma keeps_objectCompact entries :
  Forall (fun kv => keepsIndentation (dumpMember (fst kv)) /\
                    keepsIndentation (dumpMember (snd kv))) entries ->
  forall i, keepsIndentation (objectCompact dumpMember i entries).
Proof.
  induction 1 as [|[k v] entries Hkv _ IH]; intros i;
    cbn [objectCompact]; [auto with indentation|].
  destruct Hkv as [Hk Hv]. simpl in Hk, Hv. auto 12 with indentation.
Qed.

End Loops.

(** Between [++_indentation] and [--_indentation] a body that keeps the
    indentation leaves it where it was. *)
Lemma keeps_bracket (body rest : M unit) :
  keepsIndentation body -> keepsIndentation rest ->
  keepsIndentation (incr_indentation ;; body ;; decr_indentation ;; rest).
Proof.
  intros Hb Hr st st' Hint H.
  apply bind_ok in H as (st1 & H1 & H).
  apply bind_ok in H as (st2 & H2 & H).
  apply bind_ok in H as (st3 & H3 & H).
  injection H1 as <-. injection H3 as <-.
  apply Hb in H2; [|apply wrap_int_is_int].
  apply Hr in H; [|apply wrap_int_is_int].
  rewrite H. cbn [_indentation] in *. rewrite H2.
  now apply wrap_int_incr_decr.
Qed.

Section Indentation.

Variable PrettyPrint : bool.
Variable _strategy : UnsupportedTypeStrategy.
Variable _callback : option Callback.
Variable fpconv_dtoa : float -> string.

Notation internalDump' :=
  (internalDump PrettyPrint _strategy _callback fpconv_dtoa).

Lemma fixes_handleUnsupportedType slice :
  fixesIndentation (handleUnsupportedType _strategy slice).
Proof.
  unfold handleUnsupportedType. destruct _strategy; auto with indentation.
Qed.

(** After the hook has declined, the dispatch decides. *)
Lemma keeps_after_callback slice parent (m : M unit) :
  keepsIndentation m ->
  (forall st st1,
      runCallback _callback slice parent st = (false, st1) ->
      internalDump' slice parent st = m st1) ->
  keepsIndentation (internalDump' slice parent).
Proof.
  intros Hm Hd st st' Hint H.
  destruct (runCallback _callback slice parent st) as [[|] st1] eqn:Hcb.
  - rewrite (internalDump_handled _ _ _ _ _ _ _ _ Hcb) in H.
    injection H as <-. exact (runCallback_indentation _ _ _ _ _ _ Hcb).
  - rewrite (Hd _ _ Hcb) in H.
    pose proof (runCallback_indentation _ _ _ _ _ _ Hcb) as E.
    rewrite <- E. apply Hm; [now rewrite E|assumption].
Qed.

Lemma internalDump_keeps slice :
  forall parent, keepsIndentation (internalDump' slice parent).
Proof.
  induction slice using JasonSlice_nested_ind; intros parent.
  all: try (eapply keeps_after_callback;
            [|intros st st1 Hcb; cbn [internalDump]; rewrite Hcb; reflexivity];
            auto using fixes_handleUnsupportedType with indentation; fail).
  - (* Bool *)
    eapply keeps_after_callback;
      [|intros st st1 Hcb; cbn [internalDump]; rewrite Hcb; reflexivity].
    destruct b; auto with indentation.
  - (* Array *)
    eapply keeps_after_callback;
      [|intros st st1 Hcb; cbn [internalDump]; rewrite Hcb; reflexivity].
    assert (Hm : Forall (fun x => keepsIndentation
                                     (internalDump' x (Some (SArray members))))
                        members).
    { eapply Forall_impl; [|exact H]. intros x Hx. apply Hx. }
    apply keeps_if.
    + do 2 (apply keeps_bind; [auto with indentation|]).
      apply keeps_bracket; [now apply keeps_arrayPretty|].
      auto with indentation.
    + apply keeps_bind; [auto with indentation|].
      apply keeps_bind; [now apply keeps_arrayCompact|].
      auto with indentation.
  - (* Object *)
    eapply keeps_after_callback;
      [|intros st st1 Hcb; cbn [internalDump]; rewrite Hcb; reflexivity].
    assert (Hm : Forall (fun kv =>
                  keepsIndentation
                    (internalDump' (fst kv) (Some (SObject entries))) /\
                  keepsIndentation
                    (internalDump' (snd kv) (Some (SObject entries))))
                        entries).
    { eapply Forall_impl; [|exact H]. intros kv [Hk Hv]. split; auto. }
    apply keeps_if.
    + do 2 (apply keeps_bind; [auto with indentation|]).
      apply keeps_bracket; [|auto with indentation].
      apply (keeps_objectPretty
               (fun x => internalDump' x (Some (SObject entries)))).
      exact Hm.
    + apply keeps_bind; [auto with indentation|].
      apply keeps_bind; [|auto with indentation].
      apply (keeps_objectCompact
               (fun x => internalDump' x (Some (SObject entries)))).
      exact Hm.
  - (* Double *)
    eapply keeps_after_callback;
      [|intros st st1 Hcb; cbn [internalDump]; rewrite Hcb; reflexivity].
    destruct (is_nan v || negb (is_finite v));
      auto using fixes_handleUnsupportedType with indentation.
Qed.

(** C9: when the dump of a node returns, of an array or object in
    particular, [_indentation] has the value it had when the node was
    entered, with or without [PrettyPrint]: the [++_indentation] after the
    opening bracket is undone by the [--_indentation] before the closing
    one. *)
Theorem indentation_restored slice parent st st' :
  is_int (_indentation st) ->
  internalDump PrettyPrint _strategy _callback fpconv_dtoa slice parent st
  = (inr tt, st') ->
  _indentation st' = _indentation st.
Proof. apply internalDump_keeps. Qed.

(** [dump] starts from indentation 0 and returns with it. *)
Lemma dump_indentation slice st st' :
  dump PrettyPrint _strategy _callback fpconv_dtoa slice st = (inr tt, st') ->
  _indentation st' = 0.
Proof.
  unfold dump. intros H. apply internalDump_keeps in H; [exact H|].
  unfold is_int, INT_MIN, INT_MAX. simpl. lia.
Qed.

End Indentation.
(** * Actions whose output does not depend on the state *)

Lemma appender_emits (m : M unit) (s : string) : emits m s -> appender m.
Proof. intros H. now exists (inr tt), s. Qed.

Lemma appender_throw (e : JasonException) : appender (throw e).
Proof.
  exists (inl e), "". intros st. unfold throw.
  now rewrite append_empty_r, state_eta.
Qed.

Lemma appender_bind (m k : M unit) :
  appender m -> appender k -> appender (m ;; k).
Proof.
  intros ([e|[]] & s1 & H1) (r2 & s2 & H2).
  - exists (inl e), s1. intros st. unfold bind. now rewrite H1.
  - exists r2, (s1 ++ s2)%string. intros st. unfold bind.
    rewrite H1, H2. cbn [_buffer _indentation]. now rewrite append_assoc.
Qed.

Lemma appender_if (b : bool) (m1 m2 : M unit) :
  appender m1 -> appender m2 -> appender (if b then m1 else m2).
Proof. now destruct b. Qed.

Lemma appender_dumpString_len (n : nat) :
  forall src, (String.length src <= n)%nat -> appender (dumpString src).
Proof.
  induction n as [|n IH]; intros src Hlen.
  - destruct src; [exact (appender_emits _ _ emits_ret)|simpl in Hlen; lia].
  - destruct src as [|c src]; [exact (appender_emits _ _ emits_ret)|].
    simpl in Hlen. rewrite dumpString_cons.
    destruct (maskClass c) as [|[|[|[|[|k]]]]].
    + apply IH; lia.
    + apply appender_bind; [|apply IH; lia].
      exact (appender_emits _ _ (dumpAscii_emits c)).
    + destruct src as [|c1 src]; [apply appender_throw|]. simpl in Hlen.
      apply appender_bind; [|apply IH; lia].
      exact (appender_emits _ _ (emits_append _)).
    + destruct src as [|c1 [|c2 src]]; try apply appender_throw.
      simpl in Hlen. apply appender_bind; [|apply IH; lia].
      exact (appender_emits _ _ (emits_append _)).
    + destruct src as [|c1 [|c2 [|c3 src]]]; try apply appender_throw.
      simpl in Hlen. apply appender_bind; [|apply IH; lia].
      exact (appender_emits _ _ (emits_append _)).
    + apply IH; lia.
Qed.

Lemma appender_dumpString src : appender (dumpString src).
Proof. apply (appender_dumpString_len (String.length src)). lia. Qed.

Lemma appender_push_back c : appender (push_back c).
Proof. exact (appender_emits _ _ (emits_push_back c)). Qed.

Lemma appender_append s : appender (append s).
Proof. exact (appender_emits _ _ (emits_append s)). Qed.

Lemma appender_when b m : appender m -> appender (when b m).
Proof.
  intros H. destruct b; [exact H|exact (appender_emits _ _ emits_ret)].
Qed.

Lemma appender_dumpInteger slice : appender (dumpInteger slice).
Proof.
  destruct slice; try apply appender_throw;
    unfold dumpInteger; cbn [isType type JasonType.eqb getInt getUInt getSmallInt].
  - unfold dumpInt.
    apply appender_bind; [apply appender_when, appender_push_back|].
    apply appender_if; [apply appender_append|]. cbv zeta.
    repeat (apply appender_bind;
            [apply appender_when, appender_push_back|]).
    apply appender_push_back.
  - exact (appender_emits _ _ (dumpUInt_cascade v)).
  - unfold dumpSmallInt. apply appender_if;
      [apply appender_bind|]; apply appender_push_back.
Qed.

Lemma appender_handleUnsupportedType strategy slice :
  appender (handleUnsupportedType strategy slice).
Proof.
  destruct strategy; [apply appender_append|apply appender_throw].
Qed.

Lemma appender_writes (m : M unit) (st : DumperState) :
  appender m -> writes m st (_buffer (snd (m (mkState "" 0)))).
Proof.
  intros (r & s & H) st' E. rewrite H in E. rewrite H.
  injection E as _ <-. reflexivity.
Qed.

(** * Actions that, when they return, have appended a given text *)

Lemma writes_emits (m : M unit) (s : string) (st : DumperState) :
  emits m s -> writes m st s.
Proof. intros H st'. rewrite H. now intros [= <-]. Qed.

Lemma writes_eq (m : M unit) (st : DumperState) (s s' : string) :
  writes m st s -> s = s' -> writes m st s'.
Proof. now intros H <-. Qed.

Lemma writes_bind (m k : M unit) (st : DumperState) (a b : string) :
  writes m st a ->
  writes k (mkState (_buffer st ++ a) (_indentation st)) b ->
  writes (m ;; k) st (a ++ b).
Proof.
  intros Hm Hk st' H.
  apply bind_ok in H as (st1 & H1 & H2).
  apply Hm in H1. subst st1. apply Hk in H2. subst st'.
  cbn [_buffer _indentation]. now rewrite append_assoc.
Qed.

Lemma writes_when (b : bool) (m : M unit) (st : DumperState) (s : string) :
  writes m st s -> writes (when b m) st (if b then s else "").
Proof.
  intros H. destruct b; [exact H|].
  apply writes_emits, emits_ret.
Qed.

Lemma to_size_t_level (d : nat) :
  Z.of_nat d <= INT_MAX -> Z.to_nat (to_size_t (Z.of_nat d)) = d.
Proof.
  unfold INT_MAX, to_size_t. intros H.
  rewrite Z.mod_small by lia. apply Nat2Z.id.
Qed.

Lemma writes_indent (st : DumperState) (d : nat) :
  _indentation st = Z.of_nat d -> Z.of_nat d <= INT_MAX ->
  writes indent st (spaces d).
Proof.
  intros E Hd st'. unfold indent, bind, reserve, ret, append. cbv zeta.
  cbn [_buffer _indentation]. rewrite E, to_size_t_level by assumption.
  now intros [= <-].
Qed.

Lemma writes_bracket (body rest : M unit) (st : DumperState) (d : nat)
  (a b : string) :
  _indentation st = Z.of_nat d ->
  Z.of_nat (S d) <= INT_MAX ->
  (forall st1, _indentation st1 = Z.of_nat (S d) -> writes body st1 a) ->
  (forall st2, _indentation st2 = Z.of_nat d -> writes rest st2 b) ->
  writes (incr_indentation ;; body ;; decr_indentation ;; rest) st (a ++ b).
Proof.
  intros E Hd Hbody Hrest st' H.
  apply bind_ok in H as (st1 & H1 & H).
  apply bind_ok in H as (st2 & H2 & H).
  apply bind_ok in H as (st3 & H3 & H).
  injection H1 as <-.
  assert (Hup : wrap_int (_indentation st + 1) = Z.of_nat (S d)).
  { rewrite E, wrap_int_small; unfold is_int, INT_MIN, INT_MAX in *; lia. }
  apply Hbody in H2; [|exact Hup]. subst st2.
  injection H3 as <-. cbn [_buffer _indentation] in H.
  assert (Hdown : wrap_int (wrap_int (_indentation st + 1) - 1) = Z.of_nat d).
  { rewrite Hup, wrap_int_small; unfold is_int, INT_MIN, INT_MAX in *; lia. }
  apply Hrest in H; [|exact Hdown]. subst st'.
  cbn [_buffer _indentation]. now rewrite Hdown, E, append_assoc.
Qed.

Lemma concat_comma (x : string) (l : list string) :
  String.concat "," (x :: l) = (x ++ commaPrefixed l)%string.
Proof.
  revert x. induction l as [|y l IH]; intros x.
  - simpl. now rewrite append_empty_r.
  - change (String.concat "," (x :: y :: l))
      with (x ++ "," ++ String.concat "," (y :: l))%string.
    now rewrite IH.
Qed.

Section LoopTexts.

Variable dumpMember : JasonSlice -> M unit.
Variable text : JasonSlice -> string.

Lemma writes_arrayPretty (n : Z) (d : nat) members :
  Z.of_nat (S d) <= INT_MAX ->
  Forall (fun x => forall st, _indentation st = Z.of_nat (S d) ->
                              writes (dumpMember x) st (text x)) members ->
  forall i st,
    _indentation st = Z.of_nat (S d) ->
    i + Z.of_nat (List.length members) = n ->
    writes (arrayPretty dumpMember n i members) st
      (prettyLines (S d) (map text members)).
Proof.
  intros Hd. induction 1 as [|x members Hx _ IH]; intros i st E Hn.
  - apply writes_emits, emits_ret.
  - cbn [arrayPretty map prettyLines].
    eapply writes_eq.
    + apply writes_bind; [eapply writes_indent; [exact E|exact Hd]|].
      apply writes_bind; [apply Hx; exact E|].
      apply writes_bind; [apply writes_when, writes_emits, emits_push_back|].
      apply writes_bind; [apply writes_emits, emits_push_back|].
      apply IH; [exact E|]. cbn [List.length] in Hn. lia.
    + cbn [List.length] in Hn. destruct members as [|y members].
      * replace (i + 1 =? n) with true by (symmetry; apply Z.eqb_eq; simpl in Hn; lia).
        simpl. reflexivity.
      * replace (i + 1 =? n) with false
          by (symmetry; apply Z.eqb_neq; cbn [List.length] in Hn; lia).
        reflexivity.
Qed.

Lemma writes_arrayCompact_rest members :
  Forall (fun x => forall st, writes (dumpMember x) st (text x)) members ->
  forall i st,
    0 < i ->
    writes (arrayCompact dumpMember i members) st
      (commaPrefixed (map text members)).
Proof.
  induction 1 as [|x members Hx _ IH]; intros i st Hi.
  - apply writes_emits, emits_ret.
  - cbn [arrayCompact map commaPrefixed].
    replace (0 <? i) with true by (symmetry; apply Z.ltb_lt; lia).
    apply writes_bind; [apply writes_emits, emits_push_back|].
    apply writes_bind; [apply Hx|].
    apply IH. lia.
Qed.

Lemma writes_arrayCompact members st :
  Forall (fun x => forall st, writes (dumpMember x) st (text x)) members ->
  writes (arrayCompact dumpMember 0 members) st
    (String.concat "," (map text members)).
Proof.
  intros H. destruct H as [|x members Hx H].
  - apply writes_emits, emits_ret.
  - cbn [map]. rewrite concat_comma. cbn [arrayCompact].
    eapply writes_eq.
    + apply writes_bind; [apply writes_emits, emits_ret|].
      apply writes_bind; [apply Hx|].
      apply writes_arrayCompact_rest; [exact H|lia].
    + reflexivity.
Qed.

Lemma writes_objectPretty (n : Z) (d : nat) entries :
  Z.of_nat (S d) <= INT_MAX ->
  Forall (fun kv =>
            (forall st, _indentation st = Z.of_nat (S d) ->
                        writes (dumpMember (fst kv)) st (text (fst kv))) /\
            (forall st, _indentation st = Z.of_nat (S d) ->
                        writes (dumpMember (snd kv)) st (text (snd kv))))
         entries ->
  forall i st,
    _indentation st = Z.of_nat (S d) ->
    i + Z.of_nat (List.length entries) = n ->
    writes (objectPretty dumpMember n i entries) st
      (prettyLines (S d)
         (map (fun kv => match kv with
                         | (k, v) => text k ++ " : " ++ text v
                         end)%string entries)).
Proof.
  intros Hd. induction 1 as [|[k v] entries Hkv _ IH]; intros i st E Hn.
  - apply writes_emits, emits_ret.
  - destruct Hkv as [Hk Hv]. cbn [fst snd] in Hk, Hv.
    cbn [objectPretty map prettyLines].
    eapply writes_eq.
    + apply writes_bind; [eapply writes_indent; [exact E|exact Hd]|].
      apply writes_bind; [apply Hk; exact E|].
      apply writes_bind; [apply writes_emits, emits_append|].
      apply writes_bind; [apply Hv; exact E|].
      apply writes_bind; [apply writes_when, writes_emits, emits_push_back|].
      apply writes_bind; [apply writes_emits, emits_push_back|].
      apply IH; [exact E|]. cbn [List.length] in Hn. lia.
    + cbn [List.length] in Hn. destruct entries as [|y entries].
      * replace (i + 1 =? n) with true by (symmetry; apply Z.eqb_eq; simpl in Hn; lia).
        simpl. now rewrite !append_assoc.
      * replace (i + 1 =? n) with false
          by (symmetry; apply Z.eqb_neq; cbn [List.length] in Hn; lia).
        cbn [map negb]. now rewrite !append_assoc.
Qed.

Lemma writes_objectCompact_rest entries :
  Forall (fun kv =>
            (forall st, writes (dumpMember (fst kv)) st (text (fst kv))) /\
            (forall st, writes (dumpMember (snd kv)) st (text (snd kv))))
         entries ->
  forall i st,
    0 < i ->
    writes (objectCompact dumpMember i entries) st
      (commaPrefixed
         (map (fun kv => match kv with
                         | (k, v) => text k ++ ":" ++ text v
                         end)%string entries)).
Proof.
  induction 1 as [|[k v] entries Hkv _ IH]; intros i st Hi.
  - apply writes_emits, emits_ret.
  - destruct Hkv as [Hk Hv]. cbn [fst snd] in Hk, Hv.
    cbn [objectCompact map commaPrefixed].
    replace (0 <? i) with true by (symmetry; apply Z.ltb_lt; lia).
    eapply writes_eq.
    + apply writes_bind; [apply writes_emits, emits_push_back|].
      apply writes_bind; [apply Hk|].
      apply writes_bind; [apply writes_emits, emits_push_back|].
      apply writes_bind; [apply Hv|].
      apply IH. lia.
    + now rewrite !append_assoc.
Qed.

Lemma writes_objectCompact entries st :
  Forall (fun kv =>
            (forall st, writes (dumpMember (fst kv)) st (text (fst kv))) /\
            (forall st, writes (dumpMember (snd kv)) st (text (snd kv))))
         entries ->
  writes (objectCompact dumpMember 0 entries) st
    (String.concat ","
       (map (fun kv => match kv with
                       | (k, v) => text k ++ ":" ++ text v
                       end)%string entries)).
Proof.
  intros H. destruct H as [|[k v] entries [Hk Hv] H].
  - apply writes_emits, emits_ret.
  - cbn [fst snd] in Hk, Hv. cbn [map]. rewrite concat_comma.
    cbn [objectCompact].
    eapply writes_eq.
    + apply writes_bind; [apply writes_emits, emits_ret|].
      apply writes_bind; [apply Hk|].
      apply writes_bind; [apply writes_emits, emits_push_back|].
      apply writes_bind; [apply Hv|].
      apply writes_objectCompact_rest; [exact H|lia].
    + cbn [String.append]. now rewrite !append_assoc.
Qed.

End LoopTexts.
Lemma list_max_ge (l : list nat) (x : nat) :
  In x l -> (x <= list_max l)%nat.
Proof.
  induction l as [|y l IH]; simpl; [tauto|].
  intros [->|H]; [lia|]. specialize (IH H). lia.
Qed.

Section LayoutFacts.

Variable _strategy : UnsupportedTypeStrategy.
Variable fpconv_dtoa : float -> string.

Notation text := (scalarOutput _strategy fpconv_dtoa).
Notation internalDump' b := (internalDump b _strategy None fpconv_dtoa).

Lemma writes_dispatch b slice parent (m : M unit) st s :
  (forall st, internalDump' b slice parent st = m st) ->
  writes m st s ->
  writes (internalDump' b slice parent) st s.
Proof. intros E W st' H. rewrite E in H. now apply W. Qed.

Lemma writes_scalar b slice parent (m : M unit) st :
  (forall b p st, internalDump' b slice p st = m st) ->
  appender m ->
  writes (internalDump' b slice parent) st (text slice).
Proof.
  intros E A st' H. rewrite E in H. unfold scalarOutput. rewrite E.
  exact (appender_writes m st A st' H).
Qed.

Ltac scalar_case :=
  eapply writes_scalar;
  [ intros; cbn [internalDump runCallback]; reflexivity
  | auto using appender_handleUnsupportedType, appender_append,
      appender_dumpInteger, appender_if ].

Lemma compact_writes slice :
  forall parent st,
    writes (internalDump' false slice parent) st (compactText text slice).
Proof.
  induction slice as
    [ | | b | members IH | entries IH | v | v | target IH | | | v | v | v
    | p | p | p | p ] using JasonSlice_nested_ind;
    intros parent st; cbn [compactText]; try (scalar_case; fail).
  - (* Array *)
    eapply writes_dispatch;
      [intros; cbn [internalDump runCallback]; reflexivity|].
    apply writes_bind; [apply writes_emits, emits_push_back|].
    apply writes_bind; [|apply writes_emits, emits_push_back].
    apply writes_arrayCompact.
    eapply Forall_impl; [|exact IH]. intros x Hx st1. apply Hx.
  - (* Object *)
    eapply writes_dispatch;
      [intros; cbn [internalDump runCallback]; reflexivity|].
    apply writes_bind; [apply writes_emits, emits_push_back|].
    apply writes_bind; [|apply writes_emits, emits_push_back].
    apply (writes_objectCompact
             (fun x => internalDump' false x (Some (SObject entries)))
             (compactText text)).
    eapply Forall_impl; [|exact IH]. intros kv [Hk Hv].
    split; intros st1; [apply Hk|apply Hv].
  - (* External *)
    eapply writes_dispatch; [|apply (IH None)].
    intros st1. now apply internalDump_external.
  - (* String *)
    eapply writes_scalar;
      [intros; cbn [internalDump runCallback]; reflexivity|].
    apply appender_bind; [exact (appender_emits _ _ emits_ret)|].
    apply appender_bind; [apply appender_push_back|].
    apply appender_bind; [apply appender_dumpString|apply appender_push_back].
Qed.

Lemma pretty_writes slice :
  forall parent d st,
    _indentation st = Z.of_nat d ->
    Z.of_nat d + Z.of_nat (depth slice) <= INT_MAX ->
    writes (internalDump' true slice parent) st (prettyText text d slice).
Proof.
  induction slice as
    [ | | b | members IH | entries IH | v | v | target IH | | | v | v | v
    | p | p | p | p ] using JasonSlice_nested_ind;
    intros parent d st E Hd; cbn [prettyText]; try (scalar_case; fail).
  - (* Array *)
    cbn [depth] in Hd.
    eapply writes_dispatch;
      [intros; cbn [internalDump runCallback]; reflexivity|].
    apply writes_bind; [apply writes_emits, emits_push_back|].
    apply writes_bind; [apply writes_emits, emits_push_back|].
    apply writes_bracket with (d := d); [exact E|lia| |].
    + intros st1 E1. apply writes_arrayPretty; [lia| |exact E1|lia].
      rewrite Forall_forall in IH. apply Forall_forall. intros x Hx st2 E2.
      apply IH; [exact Hx|exact E2|].
      pose proof (list_max_ge _ _ (in_map depth _ _ Hx)). lia.
    + intros st2 E2.
      apply writes_bind; [|apply writes_emits, emits_push_back].
      apply writes_indent; [exact E2|lia].
  - (* Object *)
    cbn [depth] in Hd.
    eapply writes_dispatch;
      [intros; cbn [internalDump runCallback]; reflexivity|].
    apply writes_bind; [apply writes_emits, emits_push_back|].
    apply writes_bind; [apply writes_emits, emits_push_back|].
    apply writes_bracket with (d := d); [exact E|lia| |].
    + intros st1 E1.
      apply (writes_objectPretty
               (fun x => internalDump' true x (Some (SObject entries)))
               (prettyText text (S d)));
        [lia| |exact E1|lia].
      rewrite Forall_forall in IH. apply Forall_forall.
      intros [k v] Hkv.
      pose proof (list_max_ge _ _
        (in_map (fun kv => match kv with
                           | (k, v) => Nat.max (depth k) (depth v)
                           end) _ _ Hkv)) as Hmax.
      cbn beta iota in Hmax.
      destruct (IH _ Hkv) as [Hk Hv]. cbn [fst snd] in *.
      split; intros st2 E2; [apply Hk|apply Hv]; try exact E2; lia.
    + intros st2 E2.
      apply writes_bind; [|apply writes_emits, emits_push_back].
      apply writes_indent; [exact E2|lia].
  - (* External *)
    eapply writes_dispatch; [|apply (IH None d); [exact E|exact Hd]].
    intros st1. now apply internalDump_external.
  - (* String *)
    eapply writes_scalar;
      [intros; cbn [internalDump runCallback]; reflexivity|].
    apply appender_bind; [exact (appender_emits _ _ emits_ret)|].
    apply appender_bind; [apply appender_push_back|].
    apply appender_bind; [apply appender_dumpString|apply appender_push_back].
Qed.

Lemma internalDump_layout (PrettyPrint : bool) slice parent (d : nat) st st' :
  (PrettyPrint = true ->
   _indentation st = Z.of_nat d /\
   Z.of_nat d + Z.of_nat (depth slice) <= INT_MAX) ->
  internalDump' PrettyPrint slice parent st = (inr tt, st') ->
  st' =
  mkState
    (_buffer st ++
     if PrettyPrint then prettyText text d slice else compactText text slice)
    (_indentation st).
Proof.
  intros Hp H. destruct PrettyPrint.
  - destruct (Hp eq_refl) as [E Hd]. exact (pretty_writes _ _ _ _ E Hd _ H).
  - exact (compact_writes _ _ _ _ H).
Qed.

(** C6: without a hook, a dump that returns has appended the layout of
    the node.  Compact: the members of an array or object in storage
    order, a comma between them, a colon between key and value, nothing
    else between the brackets.  Pretty: after the opening bracket and a
    newline, each member on a line of its own behind two blanks per
    level, a comma after each but the last, [ : ] between key and value,
    and the closing bracket behind the blanks of the level of the node.
    The level is the indentation at the node; it has to stay within [int]
    down to the deepest member. *)
Theorem composite_layout (PrettyPrint : bool) slice parent (d : nat) st st' :
  (PrettyPrint = true ->
   _indentation st = Z.of_nat d /\
   Z.of_nat d + Z.of_nat (depth slice) <= INT_MAX) ->
  internalDump PrettyPrint _strategy None fpconv_dtoa slice parent st
  = (inr tt, st') ->
  st' =
  mkState
    (_buffer st ++
     if PrettyPrint
     then prettyText (scalarOutput _strategy fpconv_dtoa) d slice
     else compactText (scalarOutput _strategy fpconv_dtoa) slice)
    (_indentation st).
Proof. apply internalDump_layout. Qed.

End LayoutFacts.
(** * The claims about integers *)

(** C5: the dump of an [UInt] node that the hook leaves to the dumper
    appends the decimal text of its value, for every value of a
    [uint64_t]: the digits from the cascade of thresholds, most significant
    first, and no leading zero. *)
Theorem UInt_node_decimal (PrettyPrint : bool)
  (strategy : UnsupportedTypeStrategy) (callback : option Callback)
  (fpconv_dtoa : float -> string) (v : Z) parent st st1 :
  is_uint64 v ->
  runCallback callback (SUInt v) parent st = (false, st1) ->
  internalDump PrettyPrint strategy callback fpconv_dtoa (SUInt v) parent st
  = (inr tt, mkState (_buffer st1 ++ decimal v) (_indentation st1)).
Proof.
  intros Hv Hcb. cbn [internalDump]. rewrite Hcb.
  apply (dumpUInt_decimal v Hv).
Qed.

Lemma UInt_node_decimal_witness :
  (is_uint64 0 /\
   runCallback None (SUInt 0) None empty_state = (false, empty_state) /\
   internalDump false StrategyFail None dtoa_example (SUInt 0) None empty_state
   = (inr tt, mkState "0" 0)) /\
  (is_uint64 UINT64_MAX /\
   runCallback None (SUInt UINT64_MAX) None empty_state
   = (false, empty_state) /\
   internalDump false StrategyFail None dtoa_example (SUInt UINT64_MAX) None
     empty_state
   = (inr tt, mkState "18446744073709551615" 0)).
Proof.
  assert (H0 : is_uint64 0) by (unfold is_uint64, UINT64_MAX; lia).
  assert (H1 : is_uint64 UINT64_MAX) by (unfold is_uint64, UINT64_MAX; lia).
  split; (split; [assumption|split; [reflexivity|]]).
  - exact (UInt_node_decimal false StrategyFail None dtoa_example 0 None
             empty_state empty_state H0 eq_refl).
  - exact (UInt_node_decimal false StrategyFail None dtoa_example UINT64_MAX
             None empty_state empty_state H1 eq_refl).
Defined.

(** C1 holds for the values that are not positive, [INT64_MIN], [-1] and
    [0] among them. *)
Lemma Int_node_nonpositive_decimal (v : Z) st :
  INT64_MIN <= v <= 0 ->
  dumpInteger (SInt v) st
  = (inr tt, mkState (_buffer st ++ decimal v) (_indentation st)).
Proof. intros H. apply (dumpInt_nonpositive v H). Qed.

Lemma Int_node_boundaries :
  dumpInteger (SInt 0) empty_state = (inr tt, mkState "0" 0) /\
  dumpInteger (SInt (-1)) empty_state = (inr tt, mkState "-1" 0) /\
  dumpInteger (SInt INT64_MIN) empty_state
  = (inr tt, mkState "-9223372036854775808" 0).
Proof. repeat split. Qed.

(** On every positive value the [Int] branch appends a single character,
    which is not a digit unless the value ends in 0. *)
Lemma Int_node_positive (v : Z) st :
  0 < v ->
  dumpInteger (SInt v) st
  = (inr tt,
     mkState (_buffer st ++ chr (to_char (48 - v mod 10))) (_indentation st)).
Proof. intros Hv. apply (dumpInt_positive v Hv). Qed.

(** C1 fails on the code for the positive values: [dumpInteger] negates
    the value of an [Int] node whatever its sign, so that no threshold is
    reached and the only character appended is ['0' + (-v % 10)].  The
    value 5, whose decimal text is 5, is dumped as [+], 42 as [.] and
    [INT64_MAX] as [)]. *)
Theorem Int_node_positive_wrong :
  dumpInteger (SInt 5) empty_state = (inr tt, mkState "+" 0) /\
  decimal 5 = "5" /\
  dumpInteger (SInt 42) empty_state = (inr tt, mkState "." 0) /\
  dumpInteger (SInt INT64_MAX) empty_state = (inr tt, mkState ")" 0).
Proof. repeat split. Qed.

(** * Examples for the other claims *)

Lemma unsupported_type_policy_witness :
  unrepresentable (SDouble infinity) = true /\
  runCallback None (SDouble infinity) None empty_state
  = (false, empty_state) /\
  internalDump false StrategyNullify None dtoa_example (SDouble infinity)
    None empty_state
  = (inr tt, mkState "null" 0) /\
  internalDump false StrategyFail None dtoa_example (SDouble infinity)
    None empty_state
  = (inl NoJsonEquivalent, empty_state).
Proof.
  split; [reflexivity|]. split; [reflexivity|]. split.
  - exact (unsupported_type_policy false StrategyNullify None dtoa_example
             (SDouble infinity) None empty_state empty_state
             eq_refl eq_refl).
  - exact (unsupported_type_policy false StrategyFail None dtoa_example
             (SDouble infinity) None empty_state empty_state
             eq_refl eq_refl).
Defined.

Lemma callback_handles_node_witness :
  Some hook_example = Some hook_example /\
  hook_example "" (SArray [SNull]) None = (true, "#") /\
  internalDump true StrategyFail (Some hook_example) dtoa_example
    (SArray [SNull]) None empty_state
  = (inr tt, mkState "#" 0).
Proof.
  split; [reflexivity|]. split; [reflexivity|].
  exact (callback_handles_node true StrategyFail (Some hook_example)
           dtoa_example hook_example (SArray [SNull]) None empty_state "#"
           eq_refl eq_refl).
Defined.

Lemma external_dumps_target_witness :
  runCallback None (SExternal (SBool true)) (Some (SArray [])) empty_state
  = (false, empty_state) /\
  internalDump false StrategyFail None dtoa_example (SExternal (SBool true))
    (Some (SArray [])) empty_state
  = internalDump false StrategyFail None dtoa_example (SBool true) None
      empty_state.
Proof.
  split; [reflexivity|].
  exact (external_dumps_target false StrategyFail None dtoa_example
           (SBool true) (Some (SArray [])) empty_state empty_state eq_refl).
Defined.

Lemma stray_byte_is_skipped_witness :
  dumpString "a" empty_state = (inr tt, mkState "a" 0) /\
  strayByte (to_char 0x80) = true /\
  dumpString ("a" ++ String (to_char 0x80) "b") empty_state
  = dumpString "b" (mkState "a" 0).
Proof.
  split; [reflexivity|]. split; [reflexivity|].
  exact (stray_byte_is_skipped "a" (to_char 0x80) "b" empty_state
           (mkState "a" 0) eq_refl eq_refl).
Defined.

Lemma lead_byte_sequence_witness :
  dumpString "a" empty_state = (inr tt, mkState "a" 0) /\
  leadLength (to_char 0xE2) = Some 3%nat /\
  dumpString ("a" ++ String (to_char 0xE2) (chr (to_char 0x82))) empty_state
  = (inl InvalidUtf8Sequence, mkState "a" 0).
Proof.
  split; [reflexivity|]. split; [reflexivity|].
  exact (lead_byte_sequence "a" (to_char 0xE2) (chr (to_char 0x82))
           empty_state (mkState "a" 0) 3 eq_refl eq_refl).
Defined.

Lemma ascii_byte_escaped_witness :
  dumpString "a" empty_state = (inr tt, mkState "a" 0) /\
  isAscii DQUOTE = true /\
  dumpString ("a" ++ String DQUOTE "b") empty_state
  = dumpString "b" (mkState ("a" ++ escapedAscii DQUOTE) 0).
Proof.
  split; [reflexivity|]. split; [reflexivity|].
  exact (ascii_byte_escaped "a" DQUOTE "b" empty_state (mkState "a" 0)
           eq_refl eq_refl).
Defined.

Lemma indentation_restored_witness :
  is_int (_indentation empty_state) /\
  internalDump true StrategyFail None dtoa_example
    (SArray [SObject []]) None empty_state
  = (inr tt,
     mkState
       (String "[" (String LF
          (String " " (String " " (String "{" (String LF
          (String " " (String " " (String "}" (String LF "]"))))))))))
       0) /\
  _indentation
    (mkState
       (String "[" (String LF
          (String " " (String " " (String "{" (String LF
          (String " " (String " " (String "}" (String LF "]"))))))))))
       0)
  = _indentation empty_state.
Proof.
  assert (H : is_int (_indentation empty_state))
    by (unfold is_int, INT_MIN, INT_MAX; simpl; lia).
  assert (E : internalDump true StrategyFail None dtoa_example
                (SArray [SObject []]) None empty_state
              = (inr tt,
                 mkState
                   (String "[" (String LF
                      (String " " (String " " (String "{" (String LF
                      (String " " (String " " (String "}" (String LF
                        "]"))))))))))
                   0)) by reflexivity.
  split; [exact H|]. split; [exact E|].
  exact (indentation_restored true StrategyFail None dtoa_example
           (SArray [SObject []]) None empty_state _ H E).
Defined.

Lemma composite_layout_witness :
  (* Array([1,2]), compact *)
  (internalDump false StrategyFail None dtoa_example
     (SArray [SSmallInt 1; SSmallInt 2]) None empty_state
   = (inr tt, mkState "[1,2]" 0) /\
   mkState "[1,2]" 0
   = mkState
       (_buffer empty_state ++
        compactText (scalarOutput StrategyFail dtoa_example)
          (SArray [SSmallInt 1; SSmallInt 2]))
       (_indentation empty_state)) /\
  (* Array([1,2]), pretty *)
  (_indentation empty_state = Z.of_nat 0 /\
   Z.of_nat 0 + Z.of_nat (depth (SArray [SSmallInt 1; SSmallInt 2]))
   <= INT_MAX /\
   internalDump true StrategyFail None dtoa_example
     (SArray [SSmallInt 1; SSmallInt 2]) None empty_state
   = (inr tt,
      mkState
        (String "[" (String LF
           (String " " (String " " (String "1" (String "," (String LF
           (String " " (String " " (String "2" (String LF "]")))))))))))
        0) /\
   mkState
     (String "[" (String LF
        (String " " (String " " (String "1" (String "," (String LF
        (String " " (String " " (String "2" (String LF "]")))))))))))
     0
   = mkState
       (_buffer empty_state ++
        prettyText (scalarOutput StrategyFail dtoa_example) 0
          (SArray [SSmallInt 1; SSmallInt 2]))
       (_indentation empty_state)).
Proof.
  assert (Hd : Z.of_nat 0 +
               Z.of_nat (depth (SArray [SSmallInt 1; SSmallInt 2]))
               <= INT_MAX) by (unfold INT_MAX; simpl; lia).
  split.
  - split; [reflexivity|].
    apply (composite_layout StrategyFail dtoa_example false
             (SArray [SSmallInt 1; SSmallInt 2]) None 0 empty_state).
    + discriminate.
    + reflexivity.
  - split; [reflexivity|]. split; [exact Hd|]. split; [reflexivity|].
    apply (composite_layout StrategyFail dtoa_example true
             (SArray [SSmallInt 1; SSmallInt 2]) None 0 empty_state).
    + intros _. split; [reflexivity|exact Hd].
    + reflexivity.
Defined.

(** * The scenarios of the specification *)

(** The static [Dump] appends the layout at level 0. *)
Lemma Dump_layout (PrettyPrint : bool) fpconv_dtoa slice buffer strategy out :
  (PrettyPrint = true -> Z.of_nat (depth slice) <= INT_MAX) ->
  Dump PrettyPrint fpconv_dtoa slice buffer strategy = (inr tt, out) ->
  out =
  (buffer ++
   if PrettyPrint
   then prettyText (scalarOutput strategy fpconv_dtoa) 0 slice
   else compactText (scalarOutput strategy fpconv_dtoa) slice)%string.
Proof.
  intros Hd. unfold Dump.
  destruct (internalDump PrettyPrint strategy None fpconv_dtoa slice None
              (mkState buffer 0)) as [r st] eqn:E.
  intros [= -> <-].
  apply (internalDump_layout strategy fpconv_dtoa PrettyPrint slice None 0) in E.
  - now subst st.
  - intros Hp. split; [reflexivity|]. specialize (Hd Hp). simpl. lia.
Qed.

Example scenario_scalars :
  Dump false dtoa_example SNull "" StrategyFail = (inr tt, "null") /\
  Dump false dtoa_example (SBool true) "" StrategyFail = (inr tt, "true") /\
  Dump false dtoa_example (SUInt 42) "" StrategyFail = (inr tt, "42") /\
  Dump false dtoa_example (SInt INT64_MIN) "" StrategyFail
  = (inr tt, "-9223372036854775808") /\
  Dump false dtoa_example (SUInt UINT64_MAX) "" StrategyFail
  = (inr tt, "18446744073709551615").
Proof. repeat split. Qed.

Example scenario_string :
  Dump false dtoa_example (SString (String "a" (String DQUOTE "b"))) ""
    StrategyFail
  = (inr tt,
     String DQUOTE
       (String "a" (String BACKSLASH (String DQUOTE (String "b"
          (chr DQUOTE)))))).
Proof. reflexivity. Qed.

Example scenario_object :
  Dump false dtoa_example (SObject [(SString "a", SSmallInt 1)]) ""
    StrategyFail
  = (inr tt,
     String "{" (String DQUOTE (String "a" (String DQUOTE ":1}")))) /\
  Dump true dtoa_example (SObject [(SString "a", SSmallInt 1)]) ""
    StrategyFail
  = (inr tt,
     String "{" (String LF
       (String " " (String " " (String DQUOTE (String "a" (String DQUOTE
          (String " " (String ":" (String " " (String "1" (String LF
       "}")))))))))))).
Proof. split; reflexivity. Qed.

(** * Further properties of the string escaper *)

Lemma append_cancel_l (a b c : string) : (a ++ b = a ++ c)%string -> b = c.
Proof.
  induction a as [|x a IH]; simpl; intros H; [assumption|].
  injection H as H. auto.
Qed.

Lemma length_append (a b : string) :
  String.length (a ++ b) = (String.length a + String.length b)%nat.
Proof.
  induction a as [|x a IH]; simpl; [reflexivity|]. now rewrite IH.
Qed.

Lemma dumpString_ascii_emits (src : string) :
  allAscii src = true -> emits (dumpString src) (escapedText src).
Proof.
  induction src as [|c src IH]; intros H.
  - apply emits_ret.
  - cbn [allAscii] in H. apply andb_prop in H as [Hc Hs].
    rewrite dumpString_cons, maskClass_spec, Hc. cbn [escapedText].
    apply emits_bind; [now apply dumpAscii_escaped|now apply IH].
Qed.

(** X1: a string of ASCII bytes is always dumped, and its text is the
    escaped form of its bytes, one after the other. *)
Theorem dumpString_ascii (src : string) (st : DumperState) :
  allAscii src = true ->
  dumpString src st
  = (inr tt, mkState (_buffer st ++ escapedText src) (_indentation st)).
Proof. intros H. apply (dumpString_ascii_emits src H). Qed.

Lemma unescape_escapedAscii (c : ascii) (t : string) :
  isAscii c = true ->
  unescape (escapedAscii c ++ t) = option_map (String c) (unescape t).
Proof.
  intros H. each_byte c; try discriminate H;
    cbn; destruct (unescape t); reflexivity.
Qed.

Lemma unescape_escapedText (s : string) :
  allAscii s = true -> unescape (escapedText s) = Some s.
Proof.
  induction s as [|c s IH]; intros H; [reflexivity|].
  cbn [allAscii] in H. apply andb_prop in H as [Hc Hs].
  cbn [escapedText]. rewrite unescape_escapedAscii by assumption.
  now rewrite IH.
Qed.

(** X2: escaping loses nothing on ASCII strings: two ASCII strings that
    are dumped to the same text are the same string. *)
Theorem dumpString_ascii_injective (s1 s2 : string) (st : DumperState) :
  allAscii s1 = true -> allAscii s2 = true ->
  dumpString s1 st = dumpString s2 st ->
  s1 = s2.
Proof.
  intros H1 H2 E.
  rewrite (dumpString_ascii_emits s1 H1), (dumpString_ascii_emits s2 H2) in E.
  injection E as E. apply append_cancel_l in E.
  apply (f_equal unescape) in E.
  rewrite !unescape_escapedText in E by assumption. now injection E.
Qed.

Lemma dumpAscii_bound (c : ascii) :
  exists s, emits (dumpAscii c) s /\ (1 <= String.length s <= 6)%nat.
Proof.
  eexists. split; [apply dumpAscii_emits|]. cbv zeta.
  destruct (negb _); [destruct (Ascii.eqb _ "u")|]; simpl; lia.
Qed.

Lemma dumpString_growth_len (n : nat) :
  forall src st r st',
    (String.length src <= n)%nat ->
    dumpString src st = (r, st') ->
    (String.length (_buffer st) <= String.length (_buffer st')
     <= String.length (_buffer st) + 6 * String.length src)%nat.
Proof.
  induction n as [|n IH]; intros src st r st' Hlen H.
  - destruct src; [|simpl in Hlen; lia].
    injection H as _ <-. simpl. lia.
  - destruct src as [|c src]; [injection H as _ <-; simpl; lia|].
    simpl in Hlen. rewrite dumpString_cons in H.
    destruct (maskClass c) as [|[|[|[|[|k]]]]].
    + apply IH in H; [|lia]. cbn [String.length]. lia.
    + destruct (dumpAscii_bound c) as (s & Hs & Hb).
      rewrite (bind_emits _ _ _ _ Hs) in H. apply IH in H; [|lia].
      cbn [_buffer String.length] in *. rewrite length_append in H. lia.
    + destruct src as [|c1 src];
        [injection H as _ <-; cbn [String.length]; lia|].
      simpl in Hlen. rewrite (bind_emits _ _ _ _ (emits_append _)) in H.
      apply IH in H; [|lia].
      cbn [_buffer String.length] in *. rewrite length_append in H.
      cbn [String.length] in H. lia.
    + destruct src as [|c1 [|c2 src]];
        try (injection H as _ <-; cbn [String.length]; lia).
      simpl in Hlen. rewrite (bind_emits _ _ _ _ (emits_append _)) in H.
      apply IH in H; [|lia].
      cbn [_buffer String.length] in *. rewrite length_append in H.
      cbn [String.length] in H. lia.
    + destruct src as [|c1 [|c2 [|c3 src]]];
        try (injection H as _ <-; cbn [String.length]; lia).
      simpl in Hlen. rewrite (bind_emits _ _ _ _ (emits_append _)) in H.
      apply IH in H; [|lia].
      cbn [_buffer String.length] in *. rewrite length_append in H.
      cbn [String.length] in H. lia.
    + apply IH in H; [|lia]. cbn [String.length]. lia.
Qed.

(** X3: whatever the bytes and whatever the outcome, [dumpString] only
    lengthens the buffer, and by at most six bytes for each byte of the
    string (the [reserve] of [2 + len] is no bound). *)
Theorem dumpString_growth src st r st' :
  dumpString src st = (r, st') ->
  (String.length (_buffer st) <= String.length (_buffer st')
   <= String.length (_buffer st) + 6 * String.length src)%nat.
Proof. apply (dumpString_growth_len (String.length src)). lia. Qed.

(** X4: when a string is scanned to its end, the dump of that string
    followed by another is the dump of the first and then the dump of the
    second. *)
Theorem dumpString_concat pre suf st :
  fst (dumpString pre st) = inr tt ->
  dumpString (pre ++ suf) st = (dumpString pre ;; dumpString suf) st.
Proof.
  intros H. unfold bind.
  destruct (dumpString pre st) as [[e|[]] st1] eqn:E; [discriminate H|].
  now apply dumpString_app.
Qed.

(** X5: [appendString] on ASCII bytes appends a double quote, the
    escaped bytes and a double quote, and returns. *)
Theorem appendString_ascii src st :
  allAscii src = true ->
  appendString src st
  = (inr tt,
     mkState (_buffer st ++ chr DQUOTE ++ escapedText src ++ chr DQUOTE)
       (_indentation st)).
Proof.
  intros H. unfold appendString.
  assert (E : emits (reserve (2 + Z.of_nat (String.length src)) ;;
                     push_back DQUOTE ;; dumpString src ;; push_back DQUOTE)
                ("" ++ chr DQUOTE ++ escapedText src ++ chr DQUOTE)).
  { apply emits_bind; [apply emits_ret|].
    apply emits_bind; [apply emits_push_back|].
    apply emits_bind; [now apply dumpString_ascii_emits|].
    apply emits_push_back. }
  apply E.
Qed.

(** * The exceptions of a dump *)

Lemma raisesOnly_emits P (m : M unit) (s : string) :
  emits m s -> raisesOnly P m.
Proof. intros H st e st'. rewrite H. discriminate. Qed.

Lemma raisesOnly_throw (P : JasonException -> Prop) e :
  P e -> raisesOnly P (throw e).
Proof. intros H st e' st' [= <- _]. exact H. Qed.

Lemma raisesOnly_bind P (m k : M unit) :
  raisesOnly P m -> raisesOnly P k -> raisesOnly P (m ;; k).
Proof.
  intros Hm Hk st e st'. unfold bind.
  destruct (m st) as [[e1|[]] st1] eqn:E; intros H.
  - injection H as <- _. exact (Hm _ _ _ E).
  - exact (Hk _ _ _ H).
Qed.

Lemma raisesOnly_if P (b : bool) (m1 m2 : M unit) :
  raisesOnly P m1 -> raisesOnly P m2 -> raisesOnly P (if b then m1 else m2).
Proof. now destruct b. Qed.

Lemma raisesOnly_when P (b : bool) (m : M unit) :
  raisesOnly P m -> raisesOnly P (when b m).
Proof.
  intros H. apply raisesOnly_if; [exact H|].
  exact (raisesOnly_emits P _ _ emits_ret).
Qed.

Lemma raisesOnly_push_back P c : raisesOnly P (push_back c).
Proof. exact (raisesOnly_emits P _ _ (emits_push_back c)). Qed.

Lemma raisesOnly_append P s : raisesOnly P (append s).
Proof. exact (raisesOnly_emits P _ _ (emits_append s)). Qed.

Lemma raisesOnly_ret P : raisesOnly P (ret tt).
Proof. exact (raisesOnly_emits P _ _ emits_ret). Qed.

Lemma raisesOnly_indent P : raisesOnly P indent.
Proof. intros st e st'. discriminate. Qed.

Lemma raisesOnly_incr P : raisesOnly P incr_indentation.
Proof. intros st e st'. discriminate. Qed.

Lemma raisesOnly_decr P : raisesOnly P decr_indentation.
Proof. intros st e st'. discriminate. Qed.

Create HintDb raises.

#[local] Hint Resolve raisesOnly_bind raisesOnly_if raisesOnly_when
  raisesOnly_push_back raisesOnly_append raisesOnly_ret raisesOnly_indent
  raisesOnly_incr raisesOnly_decr : raises.

Lemma raisesOnly_dumpString_len (P : JasonException -> Prop) (n : nat) :
  P InvalidUtf8Sequence ->
  forall src, (String.length src <= n)%nat -> raisesOnly P (dumpString src).
Proof.
  intros HP. induction n as [|n IH]; intros src Hlen.
  - destruct src; [apply raisesOnly_ret|simpl in Hlen; lia].
  - destruct src as [|c src]; [apply raisesOnly_ret|]. simpl in Hlen.
    rewrite dumpString_cons.
    destruct (maskClass c) as [|[|[|[|[|k]]]]].
    + apply IH; lia.
    + apply raisesOnly_bind; [|apply IH; lia].
      exact (raisesOnly_emits P _ _ (dumpAscii_emits c)).
    + destruct src as [|c1 src]; [now apply raisesOnly_throw|].
      simpl in Hlen.
      apply raisesOnly_bind; [apply raisesOnly_append|apply IH; lia].
    + destruct src as [|c1 [|c2 src]]; try now apply raisesOnly_throw.
      simpl in Hlen.
      apply raisesOnly_bind; [apply raisesOnly_append|apply IH; lia].
    + destruct src as [|c1 [|c2 [|c3 src]]]; try now apply raisesOnly_throw.
      simpl in Hlen.
      apply raisesOnly_bind; [apply raisesOnly_append|apply IH; lia].
    + apply IH; lia.
Qed.

Lemma raisesOnly_dumpString (P : JasonException -> Prop) src :
  P InvalidUtf8Sequence -> raisesOnly P (dumpString src).
Proof.
  intros HP. apply (raisesOnly_dumpString_len P (String.length src) HP). lia.
Qed.

(** On a node of one of the three integer types [dumpInteger] throws
    nothing. *)
Lemma raisesOnly_dumpInteger P slice :
  (isType slice JasonType.Int || isType slice JasonType.UInt
   || isType slice JasonType.SmallInt) = true ->
  raisesOnly P (dumpInteger slice).
Proof.
  destruct slice; try discriminate; intros _;
    unfold dumpInteger;
    cbn [isType type JasonType.eqb getInt getUInt getSmallInt].
  - unfold dumpInt. apply raisesOnly_bind; [auto with raises|].
    apply raisesOnly_if; [apply raisesOnly_append|]. cbv zeta.
    unfold digit_ge_s. auto 40 with raises.
  - exact (raisesOnly_emits P _ _ (dumpUInt_cascade v)).
  - unfold dumpSmallInt. auto with raises.
Qed.

Section LoopExceptions.

Variable P : JasonException -> Prop.
Variable dumpMember : JasonSlice -> M unit.
Variable n : Z.

Lemma raisesOnly_arrayPretty members :
  Forall (fun x => raisesOnly P (dumpMember x)) members ->
  forall i, raisesOnly P (arrayPretty dumpMember n i members).
Proof.
  induction 1 as [|x members Hx _ IH]; intros i; cbn [arrayPretty];
    auto 10 with raises.
Qed.

Lemma raisesOnly_arrayCompact members :
  Forall (fun x => raisesOnly P (dumpMember x)) members ->
  forall i, raisesOnly P (arrayCompact dumpMember i members).
Proof.
  induction 1 as [|x members Hx _ IH]; intros i; cbn [arrayCompact];
    auto 10 with raises.
Qed.

Lemma raisesOnly_objectPretty entries :
  Forall (fun kv => raisesOnly P (dumpMember (fst kv)) /\
                    raisesOnly P (dumpMember (snd kv))) entries ->
  forall i, raisesOnly P (objectPretty dumpMember n i entries).
Proof.
  induction 1 as [|[k v] entries Hkv _ IH]; intros i;
    cbn [objectPretty]; [auto with raises|].
  destruct Hkv as [Hk Hv]. simpl in Hk, Hv. auto 12 with raises.
Qed.

Lemma raisesOnly_objectCompact entries :
  Forall (fun kv => raisesOnly P (dumpMember (fst kv)) /\
                    raisesOnly P (dumpMember (snd kv))) entries ->
  forall i, raisesOnly P (objectCompact dumpMember i entries).
Proof.
  induction 1 as [|[k v] entries Hkv _ IH]; intros i;
    cbn [objectCompact]; [auto with raises|].
  destruct Hkv as [Hk Hv]. simpl in Hk, Hv. auto 12 with raises.
Qed.

End LoopExceptions.

Section Exceptions.

Variable PrettyPrint : bool.
Variable _strategy : UnsupportedTypeStrategy.
Variable _callback : option Callback.
Variable fpconv_dtoa : float -> string.

Notation internalDump' :=
  (internalDump PrettyPrint _strategy _callback fpconv_dtoa).

(** The exceptions a dump can end with. *)
Let possible (e : JasonException) : Prop :=
  e = InvalidUtf8Sequence \/
  (e = NoJsonEquivalent /\ _strategy = StrategyFail).

Lemma raisesOnly_handleUnsupportedType slice :
  raisesOnly possible (handleUnsupportedType _strategy slice).
Proof.
  unfold handleUnsupportedType. destruct _strategy eqn:E.
  - apply raisesOnly_append.
  - apply raisesOnly_throw. right. split; [reflexivity|].
    destruct _strategy; congruence.
Qed.

Lemma raisesOnly_after_callback slice parent (m : M unit) :
  raisesOnly possible m ->
  (forall st st1,
      runCallback _callback slice parent st = (false, st1) ->
      internalDump' slice parent st = m st1) ->
  raisesOnly possible (internalDump' slice parent).
Proof.
  intros Hm Hd st e st' H.
  destruct (runCallback _callback slice parent st) as [[|] st1] eqn:Hcb.
  - rewrite (internalDump_handled _ _ _ _ _ _ _ _ Hcb) in H. discriminate H.
  - rewrite (Hd _ _ Hcb) in H. exact (Hm _ _ _ H).
Qed.

Lemma internalDump_raisesOnly slice :
  forall parent, raisesOnly possible (internalDump' slice parent).
Proof.
  assert (HP : possible InvalidUtf8Sequence) by (left; reflexivity).
  induction slice as
    [ | | b | members IH | entries IH | v | v | target IH | | | v | v | v
    | p | p | p | p ] using JasonSlice_nested_ind;
    intros parent;
    (eapply raisesOnly_after_callback;
     [|intros st st1 Hcb; cbn [internalDump]; rewrite Hcb; reflexivity]);
    auto using raisesOnly_handleUnsupportedType, raisesOnly_dumpInteger,
      raisesOnly_dumpString with raises.
  - (* Array *)
    assert (Hm : Forall (fun x => raisesOnly possible
                                    (internalDump' x (Some (SArray members))))
                        members).
    { eapply Forall_impl; [|exact IH]. intros x Hx. apply Hx. }
    apply raisesOnly_if.
    + do 3 (apply raisesOnly_bind; [auto with raises|]).
      apply raisesOnly_bind; [now apply raisesOnly_arrayPretty|].
      auto with raises.
    + apply raisesOnly_bind; [auto with raises|].
      apply raisesOnly_bind; [now apply raisesOnly_arrayCompact|].
      auto with raises.
  - (* Object *)
    assert (Hm : Forall (fun kv =>
                  raisesOnly possible
                    (internalDump' (fst kv) (Some (SObject entries))) /\
                  raisesOnly possible
                    (internalDump' (snd kv) (Some (SObject entries))))
                        entries).
    { eapply Forall_impl; [|exact IH]. intros kv [Hk Hv]. split; auto. }
    apply raisesOnly_if.
    + do 3 (apply raisesOnly_bind; [auto with raises|]).
      apply raisesOnly_bind; [|auto with raises].
      apply (raisesOnly_objectPretty possible
               (fun x => internalDump' x (Some (SObject entries)))).
      exact Hm.
    + apply raisesOnly_bind; [auto with raises|].
      apply raisesOnly_bind; [|auto with raises].
      apply (raisesOnly_objectCompact possible
               (fun x => internalDump' x (Some (SObject entries)))).
      exact Hm.
Qed.

(** X6: a dump ends with no other exception than [InvalidUtf8Sequence]
    and [NoJsonEquivalent], the latter under [StrategyFail] only; the
    [InternalError] of [dumpInteger] is never raised by a dump, with any
    hook. *)
Theorem dump_exceptions slice parent st e st' :
  internalDump PrettyPrint _strategy _callback fpconv_dtoa slice parent st
  = (inl e, st') ->
  e = InvalidUtf8Sequence \/
  (e = NoJsonEquivalent /\ _strategy = StrategyFail).
Proof. apply internalDump_raisesOnly. Qed.

End Exceptions.

(** * A dump without a hook does not look at the buffer *)

Lemma framed_appender (m : M unit) : appender m -> framed m.
Proof.
  intros (r & s & H) i. exists r, s, i. intros b. apply (H (mkState b i)).
Qed.

Lemma framed_bind (m k : M unit) : framed m -> framed k -> framed (m ;; k).
Proof.
  intros Hm Hk i. destruct (Hm i) as ([e|[]] & o1 & i1 & H1).
  - exists (inl e), o1, i1. intros b. unfold bind. now rewrite H1.
  - destruct (Hk i1) as (r2 & o2 & i2 & H2).
    exists r2, (o1 ++ o2)%string, i2. intros b. unfold bind.
    rewrite H1, H2. now rewrite append_assoc.
Qed.

Lemma framed_if (b : bool) (m1 m2 : M unit) :
  framed m1 -> framed m2 -> framed (if b then m1 else m2).
Proof. now destruct b. Qed.

Lemma framed_emits (m : M unit) (s : string) : emits m s -> framed m.
Proof. intros H. exact (framed_appender _ (appender_emits _ _ H)). Qed.

Lemma framed_when (b : bool) (m : M unit) : framed m -> framed (when b m).
Proof.
  intros H. apply framed_if; [exact H|exact (framed_emits _ _ emits_ret)].
Qed.

Lemma framed_push_back c : framed (push_back c).
Proof. exact (framed_emits _ _ (emits_push_back c)). Qed.

Lemma framed_append s : framed (append s).
Proof. exact (framed_emits _ _ (emits_append s)). Qed.

Lemma framed_ret : framed (ret tt).
Proof. exact (framed_emits _ _ emits_ret). Qed.

Lemma framed_indent : framed indent.
Proof.
  intros i. exists (inr tt), (spaces (Z.to_nat (to_size_t i))), i.
  reflexivity.
Qed.

Lemma framed_incr : framed incr_indentation.
Proof.
  intros i. exists (inr tt), "", (wrap_int (i + 1)). intros b.
  unfold incr_indentation. cbn [_buffer _indentation].
  now rewrite append_empty_r.
Qed.

Lemma framed_decr : framed decr_indentation.
Proof.
  intros i. exists (inr tt), "", (wrap_int (i - 1)). intros b.
  unfold decr_indentation. cbn [_buffer _indentation].
  now rewrite append_empty_r.
Qed.

Create HintDb frame.

#[local] Hint Resolve framed_bind framed_if framed_when framed_push_back
  framed_append framed_ret framed_indent framed_incr framed_decr : frame.

Section LoopFrames.

Variable dumpMember : JasonSlice -> M unit.
Variable n : Z.

Lemma framed_arrayPretty members :
  Forall (fun x => framed (dumpMember x)) members ->
  forall i, framed (arrayPretty dumpMember n i members).
Proof.
  induction 1 as [|x members Hx _ IH]; intros i; cbn [arrayPretty];
    auto 10 with frame.
Qed.

Lemma framed_arrayCompact members :
  Forall (fun x => framed (dumpMember x)) members ->
  forall i, framed (arrayCompact dumpMember i members).
Proof.
  induction 1 as [|x members Hx _ IH]; intros i; cbn [arrayCompact];
    auto 10 with frame.
Qed.

Lemma framed_objectPretty entries :
  Forall (fun kv => framed (dumpMember (fst kv)) /\
                    framed (dumpMember (snd kv))) entries ->
  forall i, framed (objectPretty dumpMember n i entries).
Proof.
  induction 1 as [|[k v] entries Hkv _ IH]; intros i;
    cbn [objectPretty]; [auto with frame|].
  destruct Hkv as [Hk Hv]. simpl in Hk, Hv. auto 12 with frame.
Qed.

Lemma framed_objectCompact entries :
  Forall (fun kv => framed (dumpMember (fst kv)) /\
                    framed (dumpMember (snd kv))) entries ->
  forall i, framed (objectCompact dumpMember i entries).
Proof.
  induction 1 as [|[k v] entries Hkv _ IH]; intros i;
    cbn [objectCompact]; [auto with frame|].
  destruct Hkv as [Hk Hv]. simpl in Hk, Hv. auto 12 with frame.
Qed.

End LoopFrames.

Section Frames.

Variable PrettyPrint : bool.
Variable _strategy : UnsupportedTypeStrategy.
Variable fpconv_dtoa : float -> string.

Notation internalDump' :=
  (internalDump PrettyPrint _strategy None fpconv_dtoa).

Lemma framed_dispatch slice parent (m : M unit) :
  framed m ->
  (forall st, internalDump' slice parent st = m st) ->
  framed (internalDump' slice parent).
Proof.
  intros Hm E i. destruct (Hm i) as (r & out & i' & H).
  exists r, out, i'. intros b. now rewrite E.
Qed.

Lemma internalDump_framed slice :
  forall parent, framed (internalDump' slice parent).
Proof.
  induction slice as
    [ | | b | members IH | entries IH | v | v | target IH | | | v | v | v
    | p | p | p | p ] using JasonSlice_nested_ind;
    intros parent;
    (eapply framed_dispatch;
     [|intros st; cbn [internalDump runCallback]; reflexivity]);
    auto using framed_appender, appender_handleUnsupportedType,
      appender_dumpInteger, appender_dumpString with frame.
  - (* Array *)
    assert (Hm : Forall (fun x => framed
                                    (internalDump' x (Some (SArray members))))
                        members).
    { eapply Forall_impl; [|exact IH]. intros x Hx. apply Hx. }
    apply framed_if.
    + do 3 (apply framed_bind; [auto with frame|]).
      apply framed_bind; [now apply framed_arrayPretty|].
      auto with frame.
    + apply framed_bind; [auto with frame|].
      apply framed_bind; [now apply framed_arrayCompact|].
      auto with frame.
  - (* Object *)
    assert (Hm : Forall (fun kv =>
                  framed (internalDump' (fst kv) (Some (SObject entries))) /\
                  framed (internalDump' (snd kv) (Some (SObject entries))))
                        entries).
    { eapply Forall_impl; [|exact IH]. intros kv [Hk Hv]. split; auto. }
    apply framed_if.
    + do 3 (apply framed_bind; [auto with frame|]).
      apply framed_bind; [|auto with frame].
      apply (framed_objectPretty
               (fun x => internalDump' x (Some (SObject entries)))).
      exact Hm.
    + apply framed_bind; [auto with frame|].
      apply framed_bind; [|auto with frame].
      apply (framed_objectCompact
               (fun x => internalDump' x (Some (SObject entries)))).
      exact Hm.
Qed.

Lemma internalDump_frame slice parent b i :
  internalDump' slice parent (mkState b i)
  = (fst (internalDump' slice parent (mkState "" i)),
     mkState
       (b ++ _buffer (snd (internalDump' slice parent (mkState "" i))))
       (_indentation (snd (internalDump' slice parent (mkState "" i))))).
Proof.
  destruct (internalDump_framed slice parent i) as (r & out & i' & H).
  rewrite (H b), (H ""). reflexivity.
Qed.

(** X7: without a hook, the outcome of a dump, the text it appends and
    the indentation it leaves are those of the same dump on an empty
    buffer: the old bytes stay in front, also when an exception is
    thrown. *)
Theorem dump_independent_of_buffer slice parent b i :
  internalDump PrettyPrint _strategy None fpconv_dtoa slice parent
    (mkState b i)
  = (fst (internalDump PrettyPrint _strategy None fpconv_dtoa slice parent
            (mkState "" i)),
     mkState
       (b ++
        _buffer
          (snd (internalDump PrettyPrint _strategy None fpconv_dtoa slice
                  parent (mkState "" i))))
       (_indentation
          (snd (internalDump PrettyPrint _strategy None fpconv_dtoa slice
                  parent (mkState "" i))))).
Proof. apply internalDump_frame. Qed.

(** X8: without a hook, [dump] of one value followed by [append] of
    another leaves the buffer with the texts of the two values, as the
    static [Dump] gives them, behind what it held, and the indentation
    at 0. *)
Theorem dump_then_append first second buffer i text1 text2 :
  Dump PrettyPrint fpconv_dtoa first "" _strategy = (inr tt, text1) ->
  Dump PrettyPrint fpconv_dtoa second "" _strategy = (inr tt, text2) ->
  (dump PrettyPrint _strategy None fpconv_dtoa first ;;
   appendSlice PrettyPrint _strategy None fpconv_dtoa second)
    (mkState buffer i)
  = (inr tt, mkState (buffer ++ text1 ++ text2) 0).
Proof.
  unfold Dump, dump, appendSlice, bind. cbn [_buffer].
  assert (Hz : is_int 0) by (unfold is_int, INT_MIN, INT_MAX; lia).
  intros H1 H2.
  rewrite (internalDump_frame first None buffer 0).
  destruct (internalDump' first None (mkState "" 0)) as [r1 s1] eqn:E1.
  injection H1 as -> <-. cbn [fst snd].
  pose proof (internalDump_keeps PrettyPrint _strategy None fpconv_dtoa
                first None (mkState "" 0) s1 Hz E1) as K1.
  cbn [_indentation] in K1. cbn [_buffer]. rewrite K1.
  rewrite (internalDump_frame second None (buffer ++ _buffer s1) 0).
  destruct (internalDump' second None (mkState "" 0)) as [r2 s2] eqn:E2.
  injection H2 as -> <-. cbn [fst snd].
  pose proof (internalDump_keeps PrettyPrint _strategy None fpconv_dtoa
                second None (mkState "" 0) s2 Hz E2) as K2.
  cbn [_indentation] in K2. rewrite K2.
  now rewrite append_assoc.
Qed.

End Frames.

(** * Dumps that return *)

Lemma raisesOnly_nothing (m : M unit) :
  raisesOnly (fun _ => False) m -> returns m.
Proof.
  intros H st. destruct (m st) as [[e|[]] st'] eqn:E; [|reflexivity].
  destruct (H _ _ _ E).
Qed.

Section Returns.

Variable PrettyPrint : bool.
Variable _callback : option Callback.
Variable fpconv_dtoa : float -> string.

Notation internalDump' :=
  (internalDump PrettyPrint StrategyNullify _callback fpconv_dtoa).
Notation quiet := (raisesOnly (fun _ : JasonException => False)).

Lemma quiet_after_callback slice parent (m : M unit) :
  quiet m ->
  (forall st st1,
      runCallback _callback slice parent st = (false, st1) ->
      internalDump' slice parent st = m st1) ->
  quiet (internalDump' slice parent).
Proof.
  intros Hm Hd st e st' H.
  destruct (runCallback _callback slice parent st) as [[|] st1] eqn:Hcb.
  - rewrite (internalDump_handled _ _ _ _ _ _ _ _ Hcb) in H. discriminate H.
  - rewrite (Hd _ _ Hcb) in H. exact (Hm _ _ _ H).
Qed.

Lemma internalDump_quiet slice :
  allStrings allAscii slice = true ->
  forall parent, quiet (internalDump' slice parent).
Proof.
  induction slice as
    [ | | b | members IH | entries IH | v | v | target IH | | | v | v | v
    | p | p | p | p ] using JasonSlice_nested_ind;
    intros Hs parent;
    (eapply quiet_after_callback;
     [|intros st st1 Hcb; cbn [internalDump]; rewrite Hcb; reflexivity]);
    try (unfold handleUnsupportedType);
    auto using raisesOnly_dumpInteger with raises.
  - (* Array *)
    cbn [allStrings] in Hs. rewrite forallb_forall in Hs.
    rewrite Forall_forall in IH.
    assert (Hm : Forall (fun x => quiet
                                    (internalDump' x (Some (SArray members))))
                        members).
    { apply Forall_forall. intros x Hx. apply IH; auto. }
    apply raisesOnly_if.
    + do 3 (apply raisesOnly_bind; [auto with raises|]).
      apply raisesOnly_bind; [now apply raisesOnly_arrayPretty|].
      auto with raises.
    + apply raisesOnly_bind; [auto with raises|].
      apply raisesOnly_bind; [now apply raisesOnly_arrayCompact|].
      auto with raises.
  - (* Object *)
    cbn [allStrings] in Hs. rewrite forallb_forall in Hs.
    rewrite Forall_forall in IH.
    assert (Hm : Forall (fun kv =>
                  quiet (internalDump' (fst kv) (Some (SObject entries))) /\
                  quiet (internalDump' (snd kv) (Some (SObject entries))))
                        entries).
    { apply Forall_forall. intros [k v] Hkv.
      specialize (Hs _ Hkv). cbn beta iota in Hs.
      apply andb_prop in Hs as [Hk Hv].
      destruct (IH _ Hkv) as [IHk IHv]. cbn [fst snd] in *.
      split; auto. }
    apply raisesOnly_if.
    + do 3 (apply raisesOnly_bind; [auto with raises|]).
      apply raisesOnly_bind; [|auto with raises].
      apply (raisesOnly_objectPretty (fun _ => False)
               (fun x => internalDump' x (Some (SObject entries)))).
      exact Hm.
    + apply raisesOnly_bind; [auto with raises|].
      apply raisesOnly_bind; [|auto with raises].
      apply (raisesOnly_objectCompact (fun _ => False)
               (fun x => internalDump' x (Some (SObject entries)))).
      exact Hm.
  - (* String *)
    cbn [allStrings] in Hs.
    apply raisesOnly_bind; [apply raisesOnly_ret|].
    apply raisesOnly_bind; [apply raisesOnly_push_back|].
    apply raisesOnly_bind; [|apply raisesOnly_push_back].
    exact (raisesOnly_emits _ _ _ (dumpString_ascii_emits p Hs)).
Qed.

(** X9: under [StrategyNullify] a value whose strings, keys included,
    are ASCII is dumped without exception, with any hook and in both
    modes. *)
Theorem nullify_ascii_dump_returns slice parent st :
  allStrings allAscii slice = true ->
  fst (internalDump PrettyPrint StrategyNullify _callback fpconv_dtoa
         slice parent st)
  = inr tt.
Proof.
  intros Hs. apply raisesOnly_nothing. now apply internalDump_quiet.
Qed.

End Returns.

(** * Hooks that decline, and values without arrays and objects *)

Lemma bind_ext (m m' k k' : M unit) :
  (forall st, m st = m' st) -> (forall st, k st = k' st) ->
  forall st, (m ;; k) st = (m' ;; k') st.
Proof.
  intros Hm Hk st. unfold bind. rewrite Hm.
  destruct (m' st) as [[e|[]] st1]; [reflexivity|apply Hk].
Qed.

Section LoopExt.

Variables f g : JasonSlice -> M unit.
Variable n : Z.

Lemma arrayPretty_ext members :
  Forall (fun x => forall st, f x st = g x st) members ->
  forall i st, arrayPretty f n i members st = arrayPretty g n i members st.
Proof.
  induction 1 as [|x members Hx _ IH]; intros i st; [reflexivity|].
  cbn [arrayPretty].
  apply bind_ext; [reflexivity|intros st1].
  apply bind_ext; [exact Hx|intros st2].
  apply bind_ext; [reflexivity|intros st3].
  apply bind_ext; [reflexivity|apply IH].
Qed.

Lemma arrayCompact_ext members :
  Forall (fun x => forall st, f x st = g x st) members ->
  forall i st, arrayCompact f i members st = arrayCompact g i members st.
Proof.
  induction 1 as [|x members Hx _ IH]; intros i st; [reflexivity|].
  cbn [arrayCompact].
  apply bind_ext; [reflexivity|intros st1].
  apply bind_ext; [exact Hx|apply IH].
Qed.

Lemma objectPretty_ext entries :
  Forall (fun kv => (forall st, f (fst kv) st = g (fst kv) st) /\
                    (forall st, f (snd kv) st = g (snd kv) st)) entries ->
  forall i st, objectPretty f n i entries st = objectPretty g n i entries st.
Proof.
  induction 1 as [|[k v] entries [Hk Hv] _ IH]; intros i st; [reflexivity|].
  cbn [fst snd] in Hk, Hv. cbn [objectPretty].
  apply bind_ext; [reflexivity|intros st1].
  apply bind_ext; [exact Hk|intros st2].
  apply bind_ext; [reflexivity|intros st3].
  apply bind_ext; [exact Hv|intros st4].
  apply bind_ext; [reflexivity|intros st5].
  apply bind_ext; [reflexivity|apply IH].
Qed.

Lemma objectCompact_ext entries :
  Forall (fun kv => (forall st, f (fst kv) st = g (fst kv) st) /\
                    (forall st, f (snd kv) st = g (snd kv) st)) entries ->
  forall i st, objectCompact f i entries st = objectCompact g i entries st.
Proof.
  induction 1 as [|[k v] entries [Hk Hv] _ IH]; intros i st; [reflexivity|].
  cbn [fst snd] in Hk, Hv. cbn [objectCompact].
  apply bind_ext; [reflexivity|intros st1].
  apply bind_ext; [exact Hk|intros st2].
  apply bind_ext; [reflexivity|intros st3].
  apply bind_ext; [exact Hv|apply IH].
Qed.

End LoopExt.

Section Declining.

Variable PrettyPrint : bool.
Variable _strategy : UnsupportedTypeStrategy.
Variable fpconv_dtoa : float -> string.
Variable cb : Callback.
Hypothesis cb_declines : declines cb.

Lemma runCallback_declines slice parent st :
  runCallback (Some cb) slice parent st = (false, st).
Proof.
  unfold runCallback. rewrite cb_declines. now rewrite state_eta.
Qed.

Lemma internalDump_declining slice :
  forall parent st,
    internalDump PrettyPrint _strategy (Some cb) fpconv_dtoa slice parent st
    = internalDump PrettyPrint _strategy None fpconv_dtoa slice parent st.
Proof.
  induction slice as
    [ | | b | members IH | entries IH | v | v | target IH | | | v | v | v
    | p | p | p | p ] using JasonSlice_nested_ind;
    intros parent st; cbn [internalDump];
    rewrite runCallback_declines; cbn [runCallback];
    try reflexivity.
  - (* Array *)
    cbv zeta. destruct PrettyPrint.
    + do 3 (apply bind_ext; [reflexivity|intros ?]).
      apply bind_ext; [|reflexivity].
      apply arrayPretty_ext.
      eapply Forall_impl; [|exact IH]. intros x Hx. apply Hx.
    + apply bind_ext; [reflexivity|intros ?].
      apply bind_ext; [|reflexivity].
      apply arrayCompact_ext.
      eapply Forall_impl; [|exact IH]. intros x Hx. apply Hx.
  - (* Object *)
    cbv zeta. destruct PrettyPrint.
    + do 3 (apply bind_ext; [reflexivity|intros ?]).
      apply bind_ext; [|reflexivity].
      apply objectPretty_ext.
      eapply Forall_impl; [|exact IH]. intros kv [Hk Hv]. split; auto.
    + apply bind_ext; [reflexivity|intros ?].
      apply bind_ext; [|reflexivity].
      apply objectCompact_ext.
      eapply Forall_impl; [|exact IH]. intros kv [Hk Hv]. split; auto.
  - (* External *)
    apply IH.
Qed.

End Declining.

(** X10: a hook that always answers false and leaves the buffer as it
    is changes nothing: the dump is the dump without a hook. *)
Theorem declining_hook_is_no_hook (PrettyPrint : bool)
  (strategy : UnsupportedTypeStrategy) (fpconv_dtoa : float -> string)
  (cb : Callback) slice parent st :
  declines cb ->
  internalDump PrettyPrint strategy (Some cb) fpconv_dtoa slice parent st
  = internalDump PrettyPrint strategy None fpconv_dtoa slice parent st.
Proof. intros H. now apply internalDump_declining. Qed.

Lemma internalDump_flat (strategy : UnsupportedTypeStrategy)
  (callback : option Callback) (fpconv_dtoa : float -> string) slice :
  depth slice = 0%nat ->
  forall parent st,
    internalDump true strategy callback fpconv_dtoa slice parent st
    = internalDump false strategy callback fpconv_dtoa slice parent st.
Proof.
  induction slice as
    [ | | b | members IH | entries IH | v | v | target IH | | | v | v | v
    | p | p | p | p ] using JasonSlice_nested_ind;
    intros Hd parent st; try discriminate Hd; cbn [internalDump];
    try reflexivity.
  destruct (runCallback callback (SExternal target) parent st) as [[|] st1];
    [reflexivity|]. now apply IH.
Qed.

(** X11: [PrettyPrint] matters for arrays and objects only: a value
    that holds none, behind [External] nodes or not, is dumped alike in
    both modes. *)
Theorem layout_mode_only_for_composites (strategy : UnsupportedTypeStrategy)
  (callback : option Callback) (fpconv_dtoa : float -> string)
  slice parent st :
  depth slice = 0%nat ->
  internalDump true strategy callback fpconv_dtoa slice parent st
  = internalDump false strategy callback fpconv_dtoa slice parent st.
Proof. intros H. now apply internalDump_flat. Qed.

(** * [StrategyFail] is strict *)

Lemma returnsOnlyIf_bind_l (Q : Prop) (m k : M unit) :
  returnsOnlyIf Q m -> returnsOnlyIf Q (m ;; k).
Proof.
  intros H st st' E. apply bind_ok in E as (st1 & E1 & _). exact (H _ _ E1).
Qed.

Lemma returnsOnlyIf_bind_r (Q : Prop) (m k : M unit) :
  returnsOnlyIf Q k -> returnsOnlyIf Q (m ;; k).
Proof.
  intros H st st' E. apply bind_ok in E as (st1 & _ & E2). exact (H _ _ E2).
Qed.

Lemma returnsOnlyIf_conj (A B : Prop) (m : M unit) :
  returnsOnlyIf A m -> returnsOnlyIf B m -> returnsOnlyIf (A /\ B) m.
Proof. intros HA HB st st' E. split; [exact (HA _ _ E)|exact (HB _ _ E)]. Qed.

Lemma returnsOnlyIf_weaken (A B : Prop) (m : M unit) :
  (A -> B) -> returnsOnlyIf A m -> returnsOnlyIf B m.
Proof. intros HAB H st st' E. exact (HAB (H _ _ E)). Qed.

Lemma returnsOnlyIf_true (Q : Prop) (m : M unit) : Q -> returnsOnlyIf Q m.
Proof. intros H st st' _. exact H. Qed.

Lemma returnsOnlyIf_throw (Q : Prop) e : returnsOnlyIf Q (throw e).
Proof. intros st st' E. discriminate E. Qed.

Lemma returnsOnlyIf_if (Q : Prop) (b : bool) (m1 m2 : M unit) :
  returnsOnlyIf Q m1 -> returnsOnlyIf Q m2 ->
  returnsOnlyIf Q (if b then m1 else m2).
Proof. now destruct b. Qed.

Section LoopStrict.

Variable dumpMember : JasonSlice -> M unit.
Variable h : JasonSlice -> bool.
Variable n : Z.

Lemma strict_arrayPretty members :
  Forall (fun x => returnsOnlyIf (h x = false) (dumpMember x)) members ->
  forall i,
    returnsOnlyIf (existsb h members = false)
      (arrayPretty dumpMember n i members).
Proof.
  induction 1 as [|x members Hx _ IH]; intros i.
  - now apply returnsOnlyIf_true.
  - cbn [arrayPretty existsb].
    apply returnsOnlyIf_weaken
      with (A := h x = false /\ existsb h members = false);
      [intros [A B]; rewrite A, B; reflexivity|].
    apply returnsOnlyIf_conj.
    + apply returnsOnlyIf_bind_r, returnsOnlyIf_bind_l, Hx.
    + do 4 apply returnsOnlyIf_bind_r. apply IH.
Qed.

Lemma strict_arrayCompact members :
  Forall (fun x => returnsOnlyIf (h x = false) (dumpMember x)) members ->
  forall i,
    returnsOnlyIf (existsb h members = false)
      (arrayCompact dumpMember i members).
Proof.
  induction 1 as [|x members Hx _ IH]; intros i.
  - now apply returnsOnlyIf_true.
  - cbn [arrayCompact existsb].
    apply returnsOnlyIf_weaken
      with (A := h x = false /\ existsb h members = false);
      [intros [A B]; rewrite A, B; reflexivity|].
    apply returnsOnlyIf_conj.
    + apply returnsOnlyIf_bind_r, returnsOnlyIf_bind_l, Hx.
    + do 2 apply returnsOnlyIf_bind_r. apply IH.
Qed.

Lemma strict_objectPretty entries :
  Forall (fun kv => returnsOnlyIf (h (fst kv) = false) (dumpMember (fst kv)) /\
                    returnsOnlyIf (h (snd kv) = false) (dumpMember (snd kv)))
         entries ->
  forall i,
    returnsOnlyIf
      (existsb (fun kv => match kv with (k, v) => h k || h v end) entries
       = false)
      (objectPretty dumpMember n i entries).
Proof.
  induction 1 as [|[k v] entries [Hk Hv] _ IH]; intros i.
  - now apply returnsOnlyIf_true.
  - cbn [fst snd] in Hk, Hv. cbn [objectPretty existsb].
    apply returnsOnlyIf_weaken
      with (A := h k = false /\ h v = false /\
                 existsb (fun kv => match kv with (k, v) => h k || h v end)
                   entries = false);
      [intros [A [B C]]; rewrite A, B, C; reflexivity|].
    apply returnsOnlyIf_conj; [|apply returnsOnlyIf_conj].
    + apply returnsOnlyIf_bind_r, returnsOnlyIf_bind_l, Hk.
    + do 3 apply returnsOnlyIf_bind_r. apply returnsOnlyIf_bind_l, Hv.
    + do 6 apply returnsOnlyIf_bind_r. apply IH.
Qed.

Lemma strict_objectCompact entries :
  Forall (fun kv => returnsOnlyIf (h (fst kv) = false) (dumpMember (fst kv)) /\
                    returnsOnlyIf (h (snd kv) = false) (dumpMember (snd kv)))
         entries ->
  forall i,
    returnsOnlyIf
      (existsb (fun kv => match kv with (k, v) => h k || h v end) entries
       = false)
      (objectCompact dumpMember i entries).
Proof.
  induction 1 as [|[k v] entries [Hk Hv] _ IH]; intros i.
  - now apply returnsOnlyIf_true.
  - cbn [fst snd] in Hk, Hv. cbn [objectCompact existsb].
    apply returnsOnlyIf_weaken
      with (A := h k = false /\ h v = false /\
                 existsb (fun kv => match kv with (k, v) => h k || h v end)
                   entries = false);
      [intros [A [B C]]; rewrite A, B, C; reflexivity|].
    apply returnsOnlyIf_conj; [|apply returnsOnlyIf_conj].
    + apply returnsOnlyIf_bind_r, returnsOnlyIf_bind_l, Hk.
    + do 3 apply returnsOnlyIf_bind_r. apply returnsOnlyIf_bind_l, Hv.
    + do 4 apply returnsOnlyIf_bind_r. apply IH.
Qed.

End LoopStrict.

Section Strict.

Variable PrettyPrint : bool.
Variable fpconv_dtoa : float -> string.

Notation internalDump' :=
  (internalDump PrettyPrint StrategyFail None fpconv_dtoa).

Lemma strict_dispatch (Q : Prop) slice parent (m : M unit) :
  returnsOnlyIf Q m ->
  (forall st, internalDump' slice parent st = m st) ->
  returnsOnlyIf Q (internalDump' slice parent).
Proof. intros Hm E st st' H. rewrite E in H. exact (Hm _ _ H). Qed.

Lemma internalDump_strict slice :
  forall parent,
    returnsOnlyIf (hasUnrepresentable slice = false)
      (internalDump' slice parent).
Proof.
  induction slice as
    [ | | b | members IH | entries IH | v | v | target IH | | | v | v | v
    | p | p | p | p ] using JasonSlice_nested_ind;
    intros parent;
    (eapply strict_dispatch;
     [|intros st; cbn [internalDump runCallback]; reflexivity]);
    try (apply returnsOnlyIf_throw);
    try (apply returnsOnlyIf_true; reflexivity).
  - (* Array *)
    cbn [hasUnrepresentable].
    assert (Hm : Forall (fun x => returnsOnlyIf (hasUnrepresentable x = false)
                                    (internalDump' x (Some (SArray members))))
                        members).
    { eapply Forall_impl; [|exact IH]. intros x Hx. apply Hx. }
    apply returnsOnlyIf_if.
    + do 3 apply returnsOnlyIf_bind_r. apply returnsOnlyIf_bind_l.
      now apply strict_arrayPretty.
    + apply returnsOnlyIf_bind_r, returnsOnlyIf_bind_l.
      now apply strict_arrayCompact.
  - (* Object *)
    cbn [hasUnrepresentable].
    assert (Hm : Forall (fun kv =>
                  returnsOnlyIf (hasUnrepresentable (fst kv) = false)
                    (internalDump' (fst kv) (Some (SObject entries))) /\
                  returnsOnlyIf (hasUnrepresentable (snd kv) = false)
                    (internalDump' (snd kv) (Some (SObject entries))))
                        entries).
    { eapply Forall_impl; [|exact IH]. intros kv [Hk Hv]. split; auto. }
    apply returnsOnlyIf_if.
    + do 3 apply returnsOnlyIf_bind_r. apply returnsOnlyIf_bind_l.
      apply (strict_objectPretty
               (fun x => internalDump' x (Some (SObject entries)))
               hasUnrepresentable).
      exact Hm.
    + apply returnsOnlyIf_bind_r, returnsOnlyIf_bind_l.
      apply (strict_objectCompact
               (fun x => internalDump' x (Some (SObject entries)))
               hasUnrepresentable).
      exact Hm.
  - (* Double *)
    cbn [hasUnrepresentable unrepresentable].
    rewrite not_finite_iff.
    destruct (is_nan v || is_infinity v);
      [apply returnsOnlyIf_throw|now apply returnsOnlyIf_true].
  - (* External *)
    cbn [hasUnrepresentable]. apply IH.
Qed.

End Strict.

(** X12: under [StrategyFail] and without a hook, a value that holds a
    node without a JSON form at any depth, as member, key or [External]
    target, is never dumped to the end. *)
Theorem fail_is_strict (PrettyPrint : bool) (fpconv_dtoa : float -> string)
  slice parent st :
  hasUnrepresentable slice = true ->
  fst (internalDump PrettyPrint StrategyFail None fpconv_dtoa slice parent st)
  <> inr tt.
Proof.
  intros Hu E.
  destruct (internalDump PrettyPrint StrategyFail None fpconv_dtoa slice
              parent st) as [r st'] eqn:D.
  cbn [fst] in E. subst r.
  apply internalDump_strict in D. congruence.
Qed.

(** * Further properties of the integers and of [dump] *)

(** X13: for every value that is not positive, [INT64_MIN] included, the
    [Int] branch of [dumpInteger] appends the decimal text of the value. *)
Theorem Int_nonpositive_decimal (v : Z) st :
  INT64_MIN <= v <= 0 ->
  dumpInteger (SInt v) st
  = (inr tt, mkState (_buffer st ++ decimal v) (_indentation st)).
Proof. intros H. apply (dumpInt_nonpositive v H). Qed.

(** X14: for every positive value the [Int] branch of [dumpInteger]
    appends one byte only, ['0' - v % 10], which is the last digit when
    that is 0 and a character below ['0'] otherwise. *)
Theorem Int_positive_single_byte (v : Z) st :
  0 < v ->
  dumpInteger (SInt v) st
  = (inr tt,
     mkState (_buffer st ++ chr (to_char (48 - v mod 10))) (_indentation st)).
Proof. intros Hv. apply (dumpInt_positive v Hv). Qed.

(** X15: for a value of one decimal digit, negative or not, the
    [SmallInt] branch of [dumpInteger] appends the decimal text of the
    value. *)
Theorem SmallInt_decimal (v : Z) st :
  -9 <= v <= 9 ->
  dumpInteger (SSmallInt v) st
  = (inr tt, mkState (_buffer st ++ decimal v) (_indentation st)).
Proof. intros H. apply (dumpSmallInt_decimal v H). Qed.

(** X16: when [dump] returns, the indentation is 0, whatever it was
    before the call, with any hook and in both modes. *)
Theorem dump_returns_at_level_zero (PrettyPrint : bool)
  (strategy : UnsupportedTypeStrategy) (callback : option Callback)
  (fpconv_dtoa : float -> string) slice st st' :
  dump PrettyPrint strategy callback fpconv_dtoa slice st = (inr tt, st') ->
  _indentation st' = 0.
Proof. apply dump_indentation. Qed.

(** * Examples for the further properties *)

Lemma dumpString_ascii_witness :
  allAscii (String "a" (chr LF)) = true /\
  dumpString (String "a" (chr LF)) empty_state
  = (inr tt,
     mkState (_buffer empty_state ++ escapedText (String "a" (chr LF)))
       (_indentation empty_state)).
Proof.
  assert (H : allAscii (String "a" (chr LF)) = true) by reflexivity.
  split; [exact H|].
  exact (dumpString_ascii (String "a" (chr LF)) empty_state H).
Defined.

Lemma dumpString_ascii_injective_witness :
  allAscii "a/b" = true /\ allAscii "a/b" = true /\
  dumpString "a/b" empty_state = dumpString "a/b" empty_state /\
  "a/b" = "a/b".
Proof.
  assert (H : allAscii "a/b" = true) by reflexivity.
  assert (E : dumpString "a/b" empty_state = dumpString "a/b" empty_state)
    by reflexivity.
  split; [exact H|]. split; [exact H|]. split; [exact E|].
  exact (dumpString_ascii_injective "a/b" "a/b" empty_state H H E).
Defined.

Lemma dumpString_growth_witness :
  dumpString (chr (to_char 1)) (mkState "x" 0)
  = (inr tt, mkState (String "x" (String BACKSLASH "u0001")) 0) /\
  (String.length (_buffer (mkState "x" 0))
   <= String.length
        (_buffer (mkState (String "x" (String BACKSLASH "u0001")) 0))
   <= String.length (_buffer (mkState "x" 0))
      + 6 * String.length (chr (to_char 1)))%nat.
Proof.
  assert (E : dumpString (chr (to_char 1)) (mkState "x" 0)
              = (inr tt, mkState (String "x" (String BACKSLASH "u0001")) 0))
    by reflexivity.
  split; [exact E|].
  exact (dumpString_growth (chr (to_char 1)) (mkState "x" 0) (inr tt)
           (mkState (String "x" (String BACKSLASH "u0001")) 0) E).
Defined.

Lemma dumpString_concat_witness :
  fst (dumpString "ab" empty_state) = inr tt /\
  dumpString ("ab" ++ "cd") empty_state
  = (dumpString "ab" ;; dumpString "cd") empty_state.
Proof.
  assert (H : fst (dumpString "ab" empty_state) = inr tt) by reflexivity.
  split; [exact H|].
  exact (dumpString_concat "ab" "cd" empty_state H).
Defined.

Lemma appendString_ascii_witness :
  allAscii "a/b" = true /\
  appendString "a/b" empty_state
  = (inr tt,
     mkState
       (_buffer empty_state ++
        chr DQUOTE ++ escapedText "a/b" ++ chr DQUOTE)
       (_indentation empty_state)).
Proof.
  assert (H : allAscii "a/b" = true) by reflexivity.
  split; [exact H|].
  exact (appendString_ascii "a/b" empty_state H).
Defined.

Lemma dump_exceptions_witness :
  internalDump false StrategyNullify None dtoa_example
    (SArray [SString (chr (to_char 0xC3))]) None empty_state
  = (inl InvalidUtf8Sequence, mkState (String "[" (chr DQUOTE)) 0) /\
  (InvalidUtf8Sequence = InvalidUtf8Sequence \/
   (InvalidUtf8Sequence = NoJsonEquivalent /\
    StrategyNullify = StrategyFail)).
Proof.
  assert (E : internalDump false StrategyNullify None dtoa_example
                (SArray [SString (chr (to_char 0xC3))]) None empty_state
              = (inl InvalidUtf8Sequence,
                 mkState (String "[" (chr DQUOTE)) 0)) by reflexivity.
  split; [exact E|].
  exact (dump_exceptions false StrategyNullify None dtoa_example
           (SArray [SString (chr (to_char 0xC3))]) None empty_state
           InvalidUtf8Sequence (mkState (String "[" (chr DQUOTE)) 0) E).
Defined.

Lemma dump_then_append_witness :
  Dump false dtoa_example (SArray [SNull]) "" StrategyFail
  = (inr tt, "[null]") /\
  Dump false dtoa_example (SBool false) "" StrategyFail
  = (inr tt, "false") /\
  (dump false StrategyFail None dtoa_example (SArray [SNull]) ;;
   appendSlice false StrategyFail None dtoa_example (SBool false))
    (mkState "x" 7)
  = (inr tt, mkState ("x" ++ "[null]" ++ "false") 0).
Proof.
  assert (H1 : Dump false dtoa_example (SArray [SNull]) "" StrategyFail
               = (inr tt, "[null]")) by reflexivity.
  assert (H2 : Dump false dtoa_example (SBool false) "" StrategyFail
               = (inr tt, "false")) by reflexivity.
  split; [exact H1|]. split; [exact H2|].
  exact (dump_then_append false StrategyFail dtoa_example
           (SArray [SNull]) (SBool false) "x" 7 "[null]" "false" H1 H2).
Defined.

Lemma nullify_ascii_dump_returns_witness :
  allStrings allAscii (SObject [(SString "k", SArray [SNone; SString "v"])])
  = true /\
  fst (internalDump true StrategyNullify None dtoa_example
         (SObject [(SString "k", SArray [SNone; SString "v"])]) None
         empty_state)
  = inr tt.
Proof.
  assert (H : allStrings allAscii
                (SObject [(SString "k", SArray [SNone; SString "v"])])
              = true) by reflexivity.
  split; [exact H|].
  exact (nullify_ascii_dump_returns true None dtoa_example
           (SObject [(SString "k", SArray [SNone; SString "v"])]) None
           empty_state H).
Defined.

Lemma declining_hook_is_no_hook_witness :
  declines declining_hook /\
  internalDump false StrategyFail (Some declining_hook) dtoa_example
    (SArray [SNull]) None empty_state
  = internalDump false StrategyFail None dtoa_example
      (SArray [SNull]) None empty_state.
Proof.
  assert (H : declines declining_hook) by (intros buf s p; reflexivity).
  split; [exact H|].
  exact (declining_hook_is_no_hook false StrategyFail dtoa_example
           declining_hook (SArray [SNull]) None empty_state H).
Defined.

Lemma layout_mode_only_for_composites_witness :
  depth (SExternal (SString "a")) = 0%nat /\
  internalDump true StrategyFail None dtoa_example
    (SExternal (SString "a")) None empty_state
  = internalDump false StrategyFail None dtoa_example
      (SExternal (SString "a")) None empty_state.
Proof.
  assert (H : depth (SExternal (SString "a")) = 0%nat) by reflexivity.
  split; [exact H|].
  exact (layout_mode_only_for_composites StrategyFail None dtoa_example
           (SExternal (SString "a")) None empty_state H).
Defined.

Lemma fail_is_strict_witness :
  hasUnrepresentable (SArray [SNull; SObject [(SString "k", SMinKey)]])
  = true /\
  fst (internalDump false StrategyFail None dtoa_example
         (SArray [SNull; SObject [(SString "k", SMinKey)]]) None empty_state)
  <> inr tt.
Proof.
  assert (H : hasUnrepresentable
                (SArray [SNull; SObject [(SString "k", SMinKey)]]) = true)
    by reflexivity.
  split; [exact H|].
  exact (fail_is_strict false dtoa_example
           (SArray [SNull; SObject [(SString "k", SMinKey)]]) None
           empty_state H).
Defined.

Lemma Int_nonpositive_decimal_witness :
  INT64_MIN <= -42 <= 0 /\
  dumpInteger (SInt (-42)) empty_state
  = (inr tt,
     mkState (_buffer empty_state ++ decimal (-42))
       (_indentation empty_state)).
Proof.
  assert (H : INT64_MIN <= -42 <= 0) by (unfold INT64_MIN; lia).
  split; [exact H|].
  exact (Int_nonpositive_decimal (-42) empty_state H).
Defined.

Lemma Int_positive_single_byte_witness :
  0 < 42 /\
  dumpInteger (SInt 42) empty_state
  = (inr tt,
     mkState (_buffer empty_state ++ chr (to_char (48 - 42 mod 10)))
       (_indentation empty_state)).
Proof.
  assert (H : 0 < 42) by lia.
  split; [exact H|].
  exact (Int_positive_single_byte 42 empty_state H).
Defined.

Lemma SmallInt_decimal_witness :
  -9 <= -6 <= 9 /\
  dumpInteger (SSmallInt (-6)) empty_state
  = (inr tt,
     mkState (_buffer empty_state ++ decimal (-6))
       (_indentation empty_state)).
Proof.
  assert (H : -9 <= -6 <= 9) by lia.
  split; [exact H|].
  exact (SmallInt_decimal (-6) empty_state H).
Defined.

Lemma dump_returns_at_level_zero_witness :
  dump true StrategyFail None dtoa_example (SArray [SNull]) (mkState "" 5)
  = (inr tt,
     mkState
       (String "[" (String LF
          (String " " (String " " (String "n" (String "u" (String "l"
          (String "l" (String LF "]")))))))))
       0) /\
  _indentation
    (mkState
       (String "[" (String LF
          (String " " (String " " (String "n" (String "u" (String "l"
          (String "l" (String LF "]")))))))))
       0)
  = 0.
Proof.
  assert (E : dump true StrategyFail None dtoa_example (SArray [SNull])
                (mkState "" 5)
              = (inr tt,
                 mkState
                   (String "[" (String LF
                      (String " " (String " " (String "n" (String "u"
                      (String "l" (String "l" (String LF "]")))))))))
                   0)) by reflexivity.
  split; [exact E|].
  exact (dump_returns_at_level_zero true StrategyFail None dtoa_example
           (SArray [SNull]) (mkState "" 5) _ E).
Defined.

(** * Plain text *)

Lemma plainUnit_emits (u : string) :
  plainUnit u = true -> emits (dumpString u) u.
Proof.
  destruct u as [|c tail]; [discriminate|]. cbn [plainUnit].
  rewrite dumpString_cons, maskClass_spec.
  destruct (isAscii c) eqn:Ha.
  - destruct tail; [|discriminate]. intros H.
    apply String.eqb_eq in H.
    eapply emits_eq.
    + apply emits_bind; [now apply dumpAscii_escaped|apply emits_ret].
    + rewrite H. reflexivity.
  - destruct (leadLength c) as [k|] eqn:Hk; [|discriminate].
    destruct (leadLength_range c k Hk) as [_ [->|[->| ->]]]; intros H.
    + destruct tail as [|c1 [|c2 tail]]; try discriminate H.
      eapply emits_eq;
        [apply emits_bind; [apply emits_append|apply emits_ret]|reflexivity].
    + destruct tail as [|c1 [|c2 [|c3 tail]]]; try discriminate H.
      eapply emits_eq;
        [apply emits_bind; [apply emits_append|apply emits_ret]|reflexivity].
    + destruct tail as [|c1 [|c2 [|c3 [|c4 tail]]]]; try discriminate H.
      eapply emits_eq;
        [apply emits_bind; [apply emits_append|apply emits_ret]|reflexivity].
Qed.

Lemma joined_emits (units : list string) :
  Forall (fun u => plainUnit u = true) units ->
  emits (dumpString (joined units)) (joined units).
Proof.
  induction 1 as [|u units Hu _ IH]; [apply emits_ret|].
  cbn [joined]. intros st.
  rewrite (dumpString_app u (joined units) st _ (plainUnit_emits u Hu st)).
  rewrite IH. cbn [_buffer _indentation]. now rewrite append_assoc.
Qed.

(** X17: text made of ASCII bytes that need no escape and of lead bytes
    followed by the bytes they announce is dumped as it is, byte for
    byte. *)
Theorem plain_text_unchanged (units : list string) (st : DumperState) :
  Forall (fun u => plainUnit u = true) units ->
  dumpString (joined units) st
  = (inr tt, mkState (_buffer st ++ joined units) (_indentation st)).
Proof. intros H. apply (joined_emits units H). Qed.

Lemma plain_text_unchanged_witness :
  Forall (fun u => plainUnit u = true)
    ["a"; String (to_char 0xC3) (chr (to_char 0xA9));
     String (to_char 0xE2) (String (to_char 0x82) (chr (to_char 0xAC)))] /\
  dumpString
    (joined
       ["a"; String (to_char 0xC3) (chr (to_char 0xA9));
        String (to_char 0xE2) (String (to_char 0x82) (chr (to_char 0xAC)))])
    empty_state
  = (inr tt,
     mkState
       (_buffer empty_state ++
        joined
          ["a"; String (to_char 0xC3) (chr (to_char 0xA9));
           String (to_char 0xE2)
             (String (to_char 0x82) (chr (to_char 0xAC)))])
       (_indentation empty_state)).
Proof.
  assert (H : Forall (fun u => plainUnit u = true)
                ["a"; String (to_char 0xC3) (chr (to_char 0xA9));
                 String (to_char 0xE2)
                   (String (to_char 0x82) (chr (to_char 0xAC)))])
    by (repeat constructor).
  split; [exact H|].
  exact (plain_text_unchanged _ empty_state H).
Defined.
